(** * airflow-multirepo-deploy: the plugin UI and the deployment contract

    The repository ships the React client of the plugin (ui/src): a hash
    router, the repository list, the per-repository deploy page and the
    "add repository" dialog.  This development embeds the decision logic of
    those components as Rocq functions, one per source function, and states
    the properties of the natural-language specification over them.

    Conventions of the embedding.
    - A JavaScript string is a [string]: a sequence of 8-bit character codes.
      [window.location.hash] is always ASCII (a serialised URL fragment), and
      within that range the line terminators are LF and CR and the white
      space of [String.prototype.trim] is TAB, LF, VT, FF, CR, SPACE, NBSP.
    - [string | null] is [option string]; an optional or nullable array is an
      [option (list _)]; TypeScript interfaces are records.
    - An event handler is a function from the component state to the new
      state and the list of HTTP requests it issues before its first
      [await]; the continuation after the [await] is a second function that
      takes the outcome of the request. *)

From Stdlib Require Import Ascii String List Bool Arith Lia.
From Stdlib Require DecimalString.
From stdpp Require Import base option list strings gmap.

Local Open Scope bool_scope.

(** ** JavaScript values used by the client *)

Module Js.

(** Truthiness of a string: only the empty string is falsy. *)
Definition truthy (s : string) : bool :=
  match s with
  | EmptyString => false
  | String _ _ => true
  end.

(** Truthiness of a [string | null | undefined]. *)
Definition truthy_opt (o : option string) : bool :=
  match o with
  | Some s => truthy s
  | None => false
  end.

(** [a || b] where [a : string | null | undefined] and [b : string]. *)
Definition or_else (o : option string) (d : string) : string :=
  match o with
  | Some s => if truthy s then s else d
  | None => d
  end.

(** [a ?? b]: only [null] and [undefined] are replaced. *)
Definition nullish (o : option string) (d : string) : string :=
  match o with
  | Some s => s
  | None => d
  end.

(** [arr.includes(x)] on an array of strings. *)
Fixpoint includes (arr : list string) (x : string) : bool :=
  match arr with
  | [] => false
  | y :: rest => if String.eqb y x then true else includes rest x
  end.

(** LineTerminator code points (LF, CR): the characters that [.] does not
    match in a regular expression without the [s] flag. *)
Definition is_line_terminator (c : ascii) : bool :=
  match c with
  | "010"%char | "013"%char => true
  | _ => false
  end.

(** White space and line terminators stripped by [trim]. *)
Definition is_trim_space (c : ascii) : bool :=
  match c with
  | "009"%char | "010"%char | "011"%char | "012"%char | "013"%char
  | " "%char | "160"%char => true
  | _ => false
  end.

Fixpoint trim_start (s : string) : string :=
  match s with
  | EmptyString => EmptyString
  | String c t => if is_trim_space c then trim_start t else s
  end.

Definition trim_end (s : string) : string :=
  String.rev (trim_start (String.rev s)).

Definition trim (s : string) : string := trim_end (trim_start s).

(** [s.startsWith(p)] returning what follows the prefix. *)
Fixpoint strip_prefix (p s : string) : option string :=
  match p with
  | EmptyString => Some s
  | String a p' =>
      match s with
      | EmptyString => None
      | String b s' => if Ascii.eqb a b then strip_prefix p' s' else None
      end
  end.

(** [s.split(sep)] for a separator of one character taken from a class:
    the pieces between separators, the empty ones included. *)
Fixpoint split_on (is_sep : ascii -> bool) (s : string) : list string :=
  match s with
  | EmptyString => [EmptyString]
  | String c t =>
      if is_sep c then EmptyString :: split_on is_sep t
      else
        match split_on is_sep t with
        | piece :: pieces => String c piece :: pieces
        | [] => [String c EmptyString]
        end
  end.

(** The longest run of characters matched by [.], and what follows it. *)
Fixpoint dot_run (s : string) : string * string :=
  match s with
  | EmptyString => (EmptyString, EmptyString)
  | String c t =>
      if is_line_terminator c then (EmptyString, s)
      else let '(run, rest) := dot_run t in (String c run, rest)
  end.

(** Every character of the string is matched by [.]. *)
Fixpoint all_dot (s : string) : bool :=
  match s with
  | EmptyString => true
  | String c t => negb (is_line_terminator c) && all_dot t
  end.

End Js.

(** ** main.tsx: the hash router *)

Module Router.

Inductive View := repos | deploy.

(** One attempt of [/#\/status\/(.+)$/] at the start of [s]: the literal,
    then the greedy group [(.+)], then [$].  The group first takes the
    longest run of non-terminator characters; [$] (no [m] flag) holds only
    at the end of the input, and giving characters back to a shorter group
    leaves [$] before a character, so the attempt succeeds exactly when
    the run is non-empty and reaches the end.  The result is group 1. *)
Definition match_at (s : string) : option string :=
  match Js.strip_prefix "#/status/" s with
  | None => None
  | Some rest =>
      match Js.dot_run rest with
      | (String c g, EmptyString) => Some (String c g)
      | _ => None
      end
  end.

(** [str.match(/#\/status\/(.+)$/)] for a regular expression without the
    [g] flag: the start index runs from 0 to the end of the string and the
    first index where an attempt succeeds gives the match.  [None] is
    [null]; [Some g] is a match array whose element 1 is [g]. *)
Fixpoint status_match (s : string) : option string :=
  match match_at s with
  | Some g => Some g
  | None =>
      match s with
      | EmptyString => None
      | String _ t => status_match t
      end
  end.

(** [handleHashChange]: the view selected for [window.location.hash]. *)
Definition handleHashChange (hash : string) : View :=
  match status_match hash with
  | Some g => if Js.truthy g then deploy else repos
  | None => repos
  end.

(** The router component: [currentView] starts as ["repos"]; the effect
    runs [handleHashChange] once on mount and on every [hashchange]. *)
Record State := { currentView : View }.

Definition initial : State := {| currentView := repos |}.

Definition on_hash (hash : string) (st : State) : State :=
  {| currentView := handleHashChange hash |}.

Definition render (st : State) : View := currentView st.

End Router.

(** ** HTTP requests issued through [fetch] *)

Module Http.

Inductive Method := GET | POST.

(** A [File] picked in an [<input type="file">]. *)
Record File := { file_name : string; file_content : string }.

(** A [FormData] entry value: a string or a file. *)
Inductive FormValue :=
| FText (s : string)
| FFile (f : File).

(** The arguments of one [fetch(url, init)] call; [body] is the list of
    entries appended to the [FormData], in order, when one is sent. *)
Record Request := {
  method : Method;
  url : string;
  headers : list (string * string);
  body : option (list (string * FormValue))
}.

(** What the awaited [fetch(...)] and [response.json()] give back:
    [Threw m] is a rejected promise ([m] is [err.message] when the value
    thrown is an [Error]), [Response ok status payload] a response whose
    body parsed to [payload]. *)
Inductive Outcome (A : Type) :=
| Threw (message : option string)
| Response (ok : bool) (status : nat) (payload : A).
Arguments Threw {A} message.
Arguments Response {A} ok status payload.

(** [err instanceof Error ? err.message : fallback]. *)
Definition error_message (thrown : option string) (fallback : string) : string :=
  match thrown with
  | Some m => m
  | None => fallback
  end.

End Http.

(** ** pages/Deploy.tsx and pages/RepoList.tsx: the status contract *)

(** [interface Repository], declared identically in both pages. *)
Record Repository := {
  folder : string;
  active_branch : option string;
  committed_date_str : option string;
  sha : option string;
  author : option string;
  commit_message : option string;
  remotes : list (string * string);
  local_branches : list string;
  remote_branches : list string
}.

(** [interface DeployForm]. *)
Record DeployForm := {
  branches : list string;
  selected : string
}.

(** [interface DeployPageData]; [errors?: string[] | null]. *)
Record DeployPageData := {
  repo : Repository;
  form : DeployForm;
  errors : option (list string)
}.

(** What a JSX expression container renders. *)
Inductive Node :=
| Text (s : string)
| Code (s : string).

(** [{value}] for a [string | null]: React renders nothing for [null]. *)
Definition jsx_child (o : option string) : list Node :=
  match o with
  | Some s => [Text s]
  | None => []
  end.

(** Evaluation of an expression that may throw. *)
Inductive result (A : Type) :=
| Ok (a : A)
| Throw (error : string).
Arguments Ok {A} a.
Arguments Throw {A} error.

#[global] Instance result_ret : MRet result := fun _ a => Ok a.
#[global] Instance result_bind : MBind result := fun _ _ f m =>
  match m with
  | Ok a => f a
  | Throw e => Throw e
  end.

(** [recv.substring(a, b)] with [0 <= a <= b]: a call on [null] throws. *)
Definition js_substring (recv : option string) (a b : nat) : result string :=
  match recv with
  | Some s => Ok (String.substring a (b - a) s)
  | None => Throw "TypeError: Cannot read properties of null (reading 'substring')"
  end.

Module RepoList.

(** The five cells of a table row of the repository list. *)
Record Row := {
  cell_folder : Node;
  cell_branch : Node;
  cell_committed : Node;
  cell_hash : Node;
  cell_author : Node
}.

(** [repo.sha ? <Code>{repo.sha.substring(0, 8)}</Code> : <Text>-</Text>] *)
Definition hash_cell (r : Repository) : result Node :=
  if Js.truthy_opt (sha r)
  then s ← js_substring (sha r) 0 8; mret (Code s)
  else mret (Text "-").

(** The body of [repos.map((repo) => ...)]. *)
Definition render_row (r : Repository) : result Row :=
  h ← hash_cell r;
  mret {| cell_folder := Text (folder r);
          cell_branch := Text (Js.or_else (active_branch r) "-");
          cell_committed := Text (Js.or_else (committed_date_str r) "-");
          cell_hash := h;
          cell_author := Text (Js.or_else (author r) "-") |}.

End RepoList.

Module DeployPage.

Import Http.

(** [interface DeployResponse]: the message box shown after a deploy. *)
Record DeployResponse := {
  dr_success : option string;
  dr_errors : option (list string)
}.

(** The [error] member of a failed deploy reply: a string or an array. *)
Inductive ErrorData :=
| ErrString (s : string)
| ErrArray (l : list string).

(** The JSON reply of the deploy endpoint, as far as the page reads it. *)
Record DeployReply := {
  reply_success : option string;
  reply_error : option ErrorData
}.

(** The JSON reply of the cleanup endpoint, as far as the page reads it. *)
Record CleanupReply := {
  deleted_branches : option (list string);
  reply_active_branch : option string;
  cleanup_error : option string
}.

(** The [cleanupResponse] state. *)
Record CleanupResponse := {
  cr_success : bool;
  cr_message : option string;
  cr_error : option string
}.

(** The [useState] cells of the component. *)
Record State := {
  data : option DeployPageData;
  loading : bool;
  error : option string;
  deployResponse : option DeployResponse;
  selectedBranch : string;
  deploying : bool;
  cleanupResponse : option CleanupResponse;
  cleaningUp : bool
}.

Definition initial : State :=
  {| data := None; loading := true; error := None; deployResponse := None;
     selectedBranch := ""; deploying := false; cleanupResponse := None;
     cleaningUp := false |}.

(** What a handler asks of the browser. *)
Inductive Effect :=
| Fetch (r : Request)
| ReloadAfter (ms : nat).

(** [window.location.hash.match(/#\/status\/(.+)$/)?.[1] || ""]: the same
    regular expression as the router's. *)
Definition folder_of_hash (hash : string) : string :=
  Js.or_else (Router.status_match hash) "".

Definition accept_json : list (string * string) :=
  [("Accept", "application/json")].

(** [fetchDeployData], up to the [await fetch]. *)
Definition fetchDeployData (dir : string) (st : State) : State * list Effect :=
  if negb (Js.truthy dir) then
    ({| data := data st; loading := false;
        error := Some "No repository specified";
        deployResponse := deployResponse st;
        selectedBranch := selectedBranch st; deploying := deploying st;
        cleanupResponse := cleanupResponse st; cleaningUp := cleaningUp st |},
     [])
  else
    (st, [Fetch {| method := GET;
                   url := "/deployment/api/status/" +:+ dir;
                   headers := accept_json;
                   body := None |}]).

(** [branches.includes(selected) ? selected : (branches[0] ?? "")] *)
Definition initialBranch (f : DeployForm) : string :=
  if Js.includes (branches f) (selected f)
  then selected f
  else Js.nullish (head (branches f)) "".

Definition string_of_nat (n : nat) : string :=
  DecimalString.NilZero.string_of_uint (Nat.to_uint n).

Definition set_error_loaded (msg : string) (st : State) : State :=
  {| data := data st; loading := false; error := Some msg;
     deployResponse := deployResponse st;
     selectedBranch := selectedBranch st; deploying := deploying st;
     cleanupResponse := cleanupResponse st; cleaningUp := cleaningUp st |}.

(** [fetchDeployData], after the [await]: the [try] body, the [catch] and
    the [finally]. *)
Definition on_status (o : Outcome DeployPageData) (st : State) : State :=
  match o with
  | Threw m =>
      set_error_loaded
        (error_message m "An error occurred while fetching repository data") st
  | Response false status _ =>
      set_error_loaded ("HTTP error! status: " +:+ string_of_nat status) st
  | Response true _ deployData =>
      {| data := Some deployData; loading := false; error := error st;
         deployResponse := deployResponse st;
         selectedBranch := initialBranch (form deployData);
         deploying := deploying st;
         cleanupResponse := cleanupResponse st; cleaningUp := cleaningUp st |}
  end.

(** [handleDeploy], up to the [await fetch]. *)
Definition handleDeploy (dir : string) (st : State) : State * list Effect :=
  if negb (Js.truthy dir) || negb (Js.truthy (selectedBranch st))
     || negb (bool_decide (is_Some (data st)))
  then (st, [])
  else
    ({| data := data st; loading := loading st; error := error st;
        deployResponse := None;
        selectedBranch := selectedBranch st; deploying := true;
        cleanupResponse := cleanupResponse st; cleaningUp := cleaningUp st |},
     [Fetch {| method := POST;
               url := "/deployment/deploy/" +:+ dir;
               headers := accept_json;
               body := Some [("branches", FText (selectedBranch st))] |}]).

Definition set_deployResponse (r : DeployResponse) (st : State) : State :=
  {| data := data st; loading := loading st; error := error st;
     deployResponse := Some r;
     selectedBranch := selectedBranch st; deploying := false;
     cleanupResponse := cleanupResponse st; cleaningUp := cleaningUp st |}.

(** [result.error || "Deployment failed"], then
    [Array.isArray(errorData) ? [errorData.join("")] : [errorData]]. *)
Definition deploy_errors (e : option ErrorData) : list string :=
  match e with
  | Some (ErrArray l) => [foldr String.append "" l]
  | Some (ErrString s) => [if Js.truthy s then s else "Deployment failed"]
  | None => ["Deployment failed"]
  end.

(** [handleDeploy], after the [await]. *)
Definition on_deploy (o : Outcome DeployReply) (st : State) : State :=
  match o with
  | Threw m =>
      set_deployResponse
        {| dr_success := None;
           dr_errors := Some [error_message m "An error occurred during deployment"] |}
        st
  | Response true _ result =>
      set_deployResponse
        {| dr_success := Some (Js.or_else (reply_success result) "Deployment successful!");
           dr_errors := None |}
        st
  | Response false _ result =>
      set_deployResponse
        {| dr_success := None;
           dr_errors := Some (deploy_errors (reply_error result)) |}
        st
  end.

(** [handleCleanupBranches], up to the [await fetch]. *)
Definition handleCleanupBranches (dir : string) (st : State) : State * list Effect :=
  if negb (Js.truthy dir) then (st, [])
  else
    ({| data := data st; loading := loading st; error := error st;
        deployResponse := deployResponse st;
        selectedBranch := selectedBranch st; deploying := deploying st;
        cleanupResponse := None; cleaningUp := true |},
     [Fetch {| method := POST;
               url := "/deployment/api/cleanup-branches/" +:+ dir;
               headers := accept_json;
               body := None |}]).

Definition set_cleanupResponse (r : CleanupResponse) (st : State) : State :=
  {| data := data st; loading := loading st; error := error st;
     deployResponse := deployResponse st;
     selectedBranch := selectedBranch st; deploying := deploying st;
     cleanupResponse := Some r; cleaningUp := false |}.

(** [result.deleted_branches?.length || 0] *)
Definition deletedCount (result : CleanupReply) : nat :=
  match deleted_branches result with
  | Some l => length l
  | None => 0
  end.

(** [`${value}`] for a [string | null]; [None] is JSON [null]. *)
Definition template (o : option string) : string :=
  match o with
  | Some s => s
  | None => "null"
  end.

(** The success message of [handleCleanupBranches]. *)
Definition cleanup_message (result : CleanupReply) : string :=
  "Successfully deleted " +:+ string_of_nat (deletedCount result)
    +:+ " branch" +:+ (if Nat.eqb (deletedCount result) 1 then "" else "es")
    +:+ ". Active branch: " +:+ template (reply_active_branch result).

(** [handleCleanupBranches], after the [await]. *)
Definition on_cleanup (o : Outcome CleanupReply) (st : State) : State * list Effect :=
  match o with
  | Threw m =>
      (set_cleanupResponse
         {| cr_success := false; cr_message := None;
            cr_error := Some (error_message m "An error occurred during branch cleanup") |}
         st, [])
  | Response true _ result =>
      (set_cleanupResponse
         {| cr_success := true; cr_message := Some (cleanup_message result);
            cr_error := None |}
         st, [ReloadAfter 2000])
  | Response false _ result =>
      (set_cleanupResponse
         {| cr_success := false; cr_message := None;
            cr_error := Some (Js.or_else (cleanup_error result) "Failed to cleanup branches") |}
         st, [])
  end.

(** What the component returns: the spinner, the error box with its
    [Retry] button, or the page proper. *)
Inductive Screen :=
| LoadingScreen
| ErrorScreen (message : string)
| MainScreen (d : DeployPageData).

(** The early returns [if (loading)] and [if (error || !data)]. *)
Definition render (st : State) : Screen :=
  if loading st then LoadingScreen
  else
    match data st with
    | None => ErrorScreen (Js.or_else (error st) "Repository data not found")
    | Some d =>
        if Js.truthy_opt (error st)
        then ErrorScreen (Js.or_else (error st) "Repository data not found")
        else MainScreen d
    end.

(** The "Remote fetch issues" box: present when [data.errors] is an array
    with [some] entry that is non-empty after [trim]; it lists
    [data.errors.filter(Boolean)]. *)
Definition fetch_error_block (d : DeployPageData) : option (list string) :=
  match errors d with
  | None => None
  | Some errs =>
      if existsb (fun e => Js.truthy (Js.trim e)) errs
      then Some (List.filter Js.truthy errs)
      else None
  end.

(** The rows of the "Repository Details" table. *)
Record Details := {
  row_hash : list Node;
  row_message : list Node;
  row_author : list Node;
  row_committed : list Node;
  row_active : list Node;
  row_local : list Node;
  row_remotes : list (Node * Node)
}.

Definition render_details (r : Repository) : Details :=
  {| row_hash := jsx_child (sha r);
     row_message := jsx_child (commit_message r);
     row_author := jsx_child (author r);
     row_committed := jsx_child (committed_date_str r);
     row_active := jsx_child (active_branch r);
     row_local := List.map Text (local_branches r);
     row_remotes := List.map (fun '(name, url) => (Text name, Text url)) (remotes r) |}.

(** [disabled={!selectedBranch || deploying}] *)
Definition deploy_disabled (st : State) : bool :=
  negb (Js.truthy (selectedBranch st)) || deploying st.

(** [data?.repo?.local_branches]: [None] when the chain short-circuits. *)
Definition local_branches_of (d : option DeployPageData) : option (list string) :=
  match d with
  | Some d => Some (local_branches (repo d))
  | None => None
  end.

(** [disabled={cleaningUp || !data?.repo?.local_branches ||
               data.repo.local_branches.length <= 1}] *)
Definition cleanup_disabled (st : State) : bool :=
  cleaningUp st ||
  match local_branches_of (data st) with
  | None => true
  | Some l => length l <=? 1
  end.

Definition set_selectedBranch (b : string) (st : State) : State :=
  {| data := data st; loading := loading st; error := error st;
     deployResponse := deployResponse st;
     selectedBranch := b; deploying := deploying st;
     cleanupResponse := cleanupResponse st; cleaningUp := cleaningUp st |}.

(** The controls of the page that change its state or issue requests. *)
Inductive Control :=
| DeployButton
| CleanupButton
| BranchSelect (value : string).

(** A user action on a control.  Controls exist only on the page proper, a
    disabled button does not run its [onClick], and the [<select>] offers
    [form.branches] only. *)
Definition click (dir : string) (c : Control) (st : State) : State * list Effect :=
  match render st with
  | MainScreen d =>
      match c with
      | DeployButton =>
          if deploy_disabled st then (st, []) else handleDeploy dir st
      | CleanupButton =>
          if cleanup_disabled st then (st, []) else handleCleanupBranches dir st
      | BranchSelect b =>
          if Js.includes (branches (form d)) b
          then (set_selectedBranch b st, [])
          else (st, [])
      end
  | _ => (st, [])
  end.

End DeployPage.

(** ** The "add repository" dialog ([AddRepoModal]) *)

Module AddRepoModal.

Import Http.

Inductive AddMethod := ssh | github.

#[global] Instance AddMethod_eq_dec : EqDecision AddMethod.
Proof. solve_decision. Defined.

(** An entry of [githubRepos]. *)
Record GithubRepo := {
  name : string;
  full_name : string;
  description : string
}.

(** The [useState] cells of the dialog.  [folderName] can be set to
    [undefined] by [handleGithubRepoSelect]; it is kept as the empty
    string, which is as falsy and never reaches a request. *)
Record State := {
  method : AddMethod;
  githubAvailable : bool;
  loading : bool;
  error : option string;
  success : option string;
  repoUrl : string;
  folderName : string;
  sshKeyFile : option File;
  githubRepos : list GithubRepo;
  selectedGithubRepo : string;
  loadingRepos : bool
}.

Definition initial : State :=
  {| method := ssh; githubAvailable := false; loading := false;
     error := None; success := None; repoUrl := ""; folderName := "";
     sshKeyFile := None; githubRepos := []; selectedGithubRepo := "";
     loadingRepos := false |}.

(** The replies of the endpoints, as far as the dialog reads them. *)
Record ProbeReply := { available : bool }.
Record ReposReply := { repos : option (list GithubRepo); repos_error : option string }.
Record AddReply := { add_success : option string; add_error : option string }.

Definition github_available_url : string := "/deployment/api/repos/github-available".
Definition github_list_url : string := "/deployment/api/repos/github-list".
Definition add_ssh_url : string := "/deployment/api/repos/add-ssh".
Definition add_github_url : string := "/deployment/api/repos/add-github".

Definition get (u : string) : Request :=
  {| Http.method := GET; url := u; headers := []; body := None |}.

Definition post (u : string) (entries : list (string * FormValue)) : Request :=
  {| Http.method := POST; url := u; headers := []; body := Some entries |}.

(** [checkGithubAvailability], up to the [await fetch]. *)
Definition checkGithubAvailability (isOpen : bool) (st : State) : State * list Request :=
  if negb isOpen then (st, []) else (st, [get github_available_url]).

(** [checkGithubAvailability], after the [await]s: [setGithubAvailable]
    and, when the flag is false, [setMethod("ssh")]; a failed request is
    only logged. *)
Definition on_github_available (o : Outcome ProbeReply) (st : State) : State :=
  match o with
  | Threw _ => st
  | Response _ _ d =>
      {| method := if negb (available d) then ssh else method st;
         githubAvailable := available d;
         loading := loading st; error := error st; success := success st;
         repoUrl := repoUrl st; folderName := folderName st;
         sshKeyFile := sshKeyFile st; githubRepos := githubRepos st;
         selectedGithubRepo := selectedGithubRepo st;
         loadingRepos := loadingRepos st |}
  end.

(** [fetchGithubRepos], up to the [await fetch]. *)
Definition fetchGithubRepos (isOpen : bool) (st : State) : State * list Request :=
  if bool_decide (method st = github) && githubAvailable st && isOpen then
    ({| method := method st; githubAvailable := githubAvailable st;
        loading := loading st; error := None; success := success st;
        repoUrl := repoUrl st; folderName := folderName st;
        sshKeyFile := sshKeyFile st; githubRepos := githubRepos st;
        selectedGithubRepo := selectedGithubRepo st;
        loadingRepos := true |},
     [get github_list_url])
  else if bool_decide (method st = ssh) then
    ({| method := method st; githubAvailable := githubAvailable st;
        loading := loading st; error := error st; success := success st;
        repoUrl := repoUrl st; folderName := folderName st;
        sshKeyFile := sshKeyFile st; githubRepos := [];
        selectedGithubRepo := "";
        loadingRepos := loadingRepos st |},
     [])
  else (st, []).

(** [fetchGithubRepos], after the [await]s. *)
Definition on_github_list (o : Outcome ReposReply) (st : State) : State :=
  let finish (rs : list GithubRepo) (e : option string) :=
    {| method := method st; githubAvailable := githubAvailable st;
       loading := loading st; error := e; success := success st;
       repoUrl := repoUrl st; folderName := folderName st;
       sshKeyFile := sshKeyFile st; githubRepos := rs;
       selectedGithubRepo := selectedGithubRepo st;
       loadingRepos := false |} in
  match o with
  | Threw _ => finish (githubRepos st) (Some "Failed to fetch GitHub repositories")
  | Response true _ d => finish (default [] (repos d)) (error st)
  | Response false _ d =>
      finish (githubRepos st)
             (Some (Js.or_else (repos_error d) "Failed to fetch GitHub repositories"))
  end.

Definition start_submit (e : option string) (busy : bool) (st : State) : State :=
  {| method := method st; githubAvailable := githubAvailable st;
     loading := busy; error := e; success := None;
     repoUrl := repoUrl st; folderName := folderName st;
     sshKeyFile := sshKeyFile st; githubRepos := githubRepos st;
     selectedGithubRepo := selectedGithubRepo st;
     loadingRepos := loadingRepos st |}.

(** [handleSubmit], up to the [await fetch]: the two field checks, then
    the [FormData] of the chosen method. *)
Definition handleSubmit (st : State) : State * list Request :=
  match method st with
  | ssh =>
      match sshKeyFile st with
      | Some key =>
          if negb (Js.truthy (repoUrl st)) || negb (Js.truthy (folderName st))
          then (start_submit (Some "Please fill in all fields and select an SSH key file") (loading st) st, [])
          else (start_submit None true st,
                [post add_ssh_url
                   [("repo_url", FText (repoUrl st));
                    ("folder_name", FText (folderName st));
                    ("ssh_key", FFile key)]])
      | None =>
          (start_submit (Some "Please fill in all fields and select an SSH key file") (loading st) st, [])
      end
  | github =>
      if negb (Js.truthy (selectedGithubRepo st)) || negb (Js.truthy (folderName st))
      then (start_submit (Some "Please select a repository and enter a folder name") (loading st) st, [])
      else (start_submit None true st,
            [post add_github_url
               [("repo_full_name", FText (selectedGithubRepo st));
                ("folder_name", FText (folderName st))]])
  end.

(** [handleSubmit], after the [await]s. *)
Definition on_submit (o : Outcome AddReply) (st : State) : State :=
  let finish (e s : option string) :=
    {| method := method st; githubAvailable := githubAvailable st;
       loading := false; error := e; success := s;
       repoUrl := repoUrl st; folderName := folderName st;
       sshKeyFile := sshKeyFile st; githubRepos := githubRepos st;
       selectedGithubRepo := selectedGithubRepo st;
       loadingRepos := loadingRepos st |} in
  match o with
  | Threw m => finish (Some (error_message m "An error occurred")) (success st)
  | Response false _ d =>
      finish (Some (Js.or_else (add_error d) "Failed to add repository")) (success st)
  | Response true _ d =>
      finish (error st) (Some (Js.or_else (add_success d) "Repository added successfully!"))
  end.

(** [handleClose]: every cell but [githubAvailable] is reset. *)
Definition handleClose (st : State) : State :=
  {| method := ssh; githubAvailable := githubAvailable st;
     loading := false; error := None; success := None;
     repoUrl := ""; folderName := ""; sshKeyFile := None;
     githubRepos := []; selectedGithubRepo := ""; loadingRepos := false |}.

Definition setMethod (m : AddMethod) (st : State) : State :=
  {| method := m; githubAvailable := githubAvailable st;
     loading := loading st; error := error st; success := success st;
     repoUrl := repoUrl st; folderName := folderName st;
     sshKeyFile := sshKeyFile st; githubRepos := githubRepos st;
     selectedGithubRepo := selectedGithubRepo st;
     loadingRepos := loadingRepos st |}.

(** [disabled={!githubAvailable}] on the "GitHub App" tab. *)
Definition github_tab_disabled (st : State) : bool := negb (githubAvailable st).

Definition setRepoUrl (v : string) (st : State) : State :=
  {| method := method st; githubAvailable := githubAvailable st;
     loading := loading st; error := error st; success := success st;
     repoUrl := v; folderName := folderName st;
     sshKeyFile := sshKeyFile st; githubRepos := githubRepos st;
     selectedGithubRepo := selectedGithubRepo st;
     loadingRepos := loadingRepos st |}.

Definition setFolderName (v : string) (st : State) : State :=
  {| method := method st; githubAvailable := githubAvailable st;
     loading := loading st; error := error st; success := success st;
     repoUrl := repoUrl st; folderName := v;
     sshKeyFile := sshKeyFile st; githubRepos := githubRepos st;
     selectedGithubRepo := selectedGithubRepo st;
     loadingRepos := loadingRepos st |}.

Definition setSshKeyFile (v : option File) (st : State) : State :=
  {| method := method st; githubAvailable := githubAvailable st;
     loading := loading st; error := error st; success := success st;
     repoUrl := repoUrl st; folderName := folderName st;
     sshKeyFile := v; githubRepos := githubRepos st;
     selectedGithubRepo := selectedGithubRepo st;
     loadingRepos := loadingRepos st |}.

Definition setSelectedGithubRepo (v : string) (st : State) : State :=
  {| method := method st; githubAvailable := githubAvailable st;
     loading := loading st; error := error st; success := success st;
     repoUrl := repoUrl st; folderName := folderName st;
     sshKeyFile := sshKeyFile st; githubRepos := githubRepos st;
     selectedGithubRepo := v;
     loadingRepos := loadingRepos st |}.

(** [handleGithubRepoSelect]: the folder name defaults to
    [fullName.split("/")[1]] while it is still empty. *)
Definition handleGithubRepoSelect (fullName : string) (st : State) : State :=
  let repoName :=
    Js.nullish (Js.split_on (Ascii.eqb "/") fullName !! 1) "" in
  let st1 := setSelectedGithubRepo fullName st in
  if negb (Js.truthy (folderName st)) then setFolderName repoName st1 else st1.

(** What can happen to an open or closed dialog: the replies of its three
    requests and the user's actions. *)
Inductive Event :=
| ProbeReplied (o : Outcome ProbeReply)
| ReposReplied (o : Outcome ReposReply)
| SubmitReplied (o : Outcome AddReply)
| ClickSshTab
| ClickGithubTab
| SubmitForm
| CloseDialog
| InputRepoUrl (v : string)
| InputFolderName (v : string)
| InputKeyFile (v : option File)
| SelectRepo (fullName : string).

(** The second [useEffect] runs again when [method] or [githubAvailable]
    changed in the update. *)
Definition rerun_effect (isOpen : bool) (before after : State) : State * list Request :=
  if bool_decide (method before = method after)
     && Bool.eqb (githubAvailable before) (githubAvailable after)
  then (after, [])
  else fetchGithubRepos isOpen after.

(** The user's actions reach a handler only while the dialog is rendered
    ([isOpen]) and the control is enabled. *)
Definition step (isOpen : bool) (ev : Event) (st : State) : State * list Request :=
  match ev with
  | ProbeReplied o => rerun_effect isOpen st (on_github_available o st)
  | ReposReplied o => (on_github_list o st, [])
  | SubmitReplied o => (on_submit o st, [])
  | ClickSshTab =>
      if isOpen then rerun_effect isOpen st (setMethod ssh st) else (st, [])
  | ClickGithubTab =>
      if isOpen && negb (github_tab_disabled st)
      then rerun_effect isOpen st (setMethod github st)
      else (st, [])
  | SubmitForm =>
      if isOpen && negb (loading st) then handleSubmit st else (st, [])
  | CloseDialog =>
      if isOpen then rerun_effect isOpen st (handleClose st) else (st, [])
  | InputRepoUrl v =>
      if isOpen && bool_decide (method st = ssh) && negb (loading st)
      then (setRepoUrl v st, []) else (st, [])
  | InputFolderName v =>
      if isOpen && negb (loading st) then (setFolderName v st, []) else (st, [])
  | InputKeyFile v =>
      if isOpen && bool_decide (method st = ssh) && negb (loading st)
      then (setSshKeyFile v st, []) else (st, [])
  | SelectRepo fullName =>
      if isOpen && bool_decide (method st = github) && negb (loading st)
      then (handleGithubRepoSelect fullName st, []) else (st, [])
  end.

(** A sequence of events, with every request issued on the way. *)
Fixpoint run (isOpen : bool) (evs : list Event) (st : State) : State * list Request :=
  match evs with
  | [] => (st, [])
  | ev :: rest =>
      let '(st1, reqs1) := step isOpen ev st in
      let '(st2, reqs2) := run isOpen rest st1 in
      (st2, reqs1 ++ reqs2)
  end.

End AddRepoModal.

(** ** The deployment backend behind the endpoints

    The server side of the plugin is not part of ui/src.  The client above
    talks to it through the status, deploy, cleanup, add-repository and
    GitHub-availability endpoints; the definitions of this module are
    written from sections 3 to 7 of the specification, one per component. *)

Module Backend.

(** Modelled from the spec: the failure taxonomy of section 7; the server
    code that raises these is missing from the sources. *)
Inductive Failure :=
| NotConfigured
| AuthenticationError (detail : string)
| GitOperationError (detail : string)
| HookError (detail : string).

(** Modelled from the spec: the outcome tag of a [DeploymentResult]
    (section 3), shared by the provisioner's [Result]; the server code is
    missing from the sources. *)
Inductive Outcome :=
| Success
| Rejected (reason : string)
| Failed (f : Failure).

(** Modelled from the spec: the persisted configuration of section 6 (the
    plugin's configuration reader is missing from the sources).  A path is
    the list of its segments below the filesystem root. *)
Record Config := {
  url_prefix : string;
  dags_root : list string;
  post_hook : option string;
  allowed_branches : option (list string);
  gh_app_id : option string;
  gh_app_private_key : option string;
  gh_app_installation_id : option string
}.

(** Modelled from the spec: the GitHub-availability probe of section 6,
    "reports whether all three GitHub App settings are present"; the
    endpoint is missing from the sources. *)
Definition github_available (c : Config) : bool :=
  bool_decide (is_Some (gh_app_id c))
  && bool_decide (is_Some (gh_app_private_key c))
  && bool_decide (is_Some (gh_app_installation_id c)).

(** Modelled from the spec: the commit data read for a repository
    (section 3: SHA, author, message, committed timestamp); the git
    wrapper is missing from the sources. *)
Record Commit := {
  commit_sha : string;
  commit_author : string;
  commit_text : string;
  commit_date : string
}.

(** Modelled from the spec: the git state of one working tree, as far as
    sections 3, 4.2, 4.4 and 4.5 read or change it: HEAD (none when
    unborn), the active branch (none when detached), the local branches
    and the remote-tracking refs with their tips, the upstream of a local
    branch, and the configured remotes.  The git wrapper is missing from
    the sources. *)
Record WorkTree := {
  head : option Commit;
  active : option string;
  locals : gmap string Commit;
  remote_refs : gmap string Commit;
  upstream : gmap string string;
  remote_urls : list (string * string)
}.

(** Modelled from the spec: what lives at a path of the host filesystem
    (section 6, filesystem layout): a file with its permission bits, a
    plain directory, or a directory holding git metadata.  The server code
    that reads the disk is missing from the sources. *)
Inductive Entry :=
| File (content : string) (mode : N)
| PlainDir
| GitDir (w : WorkTree).

(** Modelled from the spec: the git commands a deploy workflow needs
    (section 1: clone, fetch, checkout, branch listing and deletion, plus
    the reset and fast-forward of section 4.4); the git wrapper is missing
    from the sources. *)
Inductive GitCmd :=
| ListBranches
| FetchRemote
| TrackBranch (branch : string)
| ResetHard (ref : string)
| Checkout (branch : string)
| FastForward (ref : string)
| DeleteBranch (branch : string).

(** Modelled from the spec: which of those commands change git state; only
    the branch listing of step 1 of section 4.4 reads without writing. *)
Definition mutating (c : GitCmd) : bool :=
  match c with
  | ListBranches => false
  | _ => true
  end.

(** *** Deploy engine (section 4.4) *)

(** Modelled from the spec: a [DeployRequest] (section 3), built from the
    form data of the deploy endpoint, which is missing from the sources. *)
Record DeployRequest := {
  request_folder : string;
  request_branch : string
}.

(** Modelled from the spec: a [DeploymentResult] (section 3): the outcome
    tag, the resolved commit SHA on success, the fetch warnings of step 3
    and the hook failure of step 6.  The deploy engine is missing from the
    sources. *)
Record DeploymentResult := {
  outcome : Outcome;
  resolved_sha : option string;
  warnings : list string;
  hook_error : option string
}.

(** Modelled from the spec: what the remote answers to the fetch of step 3
    (the refs it advertises, or a failure); the git wrapper is missing
    from the sources. *)
Inductive FetchResult :=
| Fetched (refs : gmap string Commit)
| FetchFailed (f : Failure).

(** Modelled from the spec: everything outside the working tree that a
    deploy depends on: the remote, whether the checkout or reset of step 4
    fails, whether the hook of step 6 raises.  The deploy engine is
    missing from the sources. *)
Record World := {
  fetch_result : FetchResult;
  switch_error : option string;
  hook_failure : option string
}.

(** Modelled from the spec: the allow-list policy of step 2, "if a branch
    allow-list is configured, reject when the requested branch is not a
    member"; the deploy engine is missing from the sources. *)
Definition allowed (cfg : Config) (branch : string) : bool :=
  match allowed_branches cfg with
  | Some l => bool_decide (branch ∈ l)
  | None => true
  end.

(** Modelled from the spec: step 3, "a fetch failure does not abort the
    deploy if the requested branch already exists locally, record it as a
    warning"; the deploy engine is missing from the sources. *)
Definition fetch_step (world : World) (branch : string) (w : WorkTree)
  : (WorkTree * list string) + Failure :=
  match fetch_result world with
  | Fetched refs =>
      inl ({| head := head w; active := active w; locals := locals w;
              remote_refs := refs ∪ remote_refs w;
              upstream := upstream w; remote_urls := remote_urls w |}, [])
  | FetchFailed f =>
      if bool_decide (is_Some (locals w !! branch))
      then inl (w, ["fetch failed"])
      else inr f
  end.

(** Modelled from the spec: the working tree once [branch] is checked out
    at [tip]; section 3: "a Repository's active branch, once a deploy
    succeeds, equals the requested target branch".  The deploy engine is
    missing from the sources. *)
Definition switched (branch : string) (tip : Commit) (w : WorkTree) : WorkTree :=
  {| head := Some tip; active := Some branch;
     locals := <[branch := tip]> (locals w);
     remote_refs := remote_refs w;
     upstream := upstream w; remote_urls := remote_urls w |}.

(** Modelled from the spec: step 4, "if it exists as a remote-tracking
    ref, create/update a local branch tracking it and hard-reset to that
    ref's tip; if it already exists purely as a local branch, check it out
    and fast-forward if a corresponding remote ref is present"; a failing
    git command is a [GitOperationError] that leaves HEAD intact
    (section 7).  The deploy engine is missing from the sources. *)
Definition switch_step (world : World) (branch : string) (w : WorkTree)
  : (WorkTree * list GitCmd) + Failure :=
  match remote_refs w !! branch with
  | Some tip =>
      match switch_error world with
      | Some e => inr (GitOperationError e)
      | None => inl (switched branch tip w, [TrackBranch branch; ResetHard branch])
      end
  | None =>
      match locals w !! branch with
      | Some tip =>
          match switch_error world with
          | Some e => inr (GitOperationError e)
          | None =>
              match upstream w !! branch with
              | Some ref =>
                  match remote_refs w !! ref with
                  | Some tip' =>
                      inl (switched branch tip' w, [Checkout branch; FastForward ref])
                  | None => inl (switched branch tip w, [Checkout branch])
                  end
              | None => inl (switched branch tip w, [Checkout branch])
              end
          end
      | None => inr (GitOperationError "unknown branch")
      end
  end.

(** Modelled from the spec: a result without a commit. *)
Definition no_deploy (o : Outcome) (ws : list string) : DeploymentResult :=
  {| outcome := o; resolved_sha := None; warnings := ws; hook_error := None |}.

(** Modelled from the spec: the six steps of [deploy] (section 4.4), run
    on the working tree of the requested folder: re-scan, allow-list,
    fetch, switch, capture HEAD, hook.  It returns the result, the working
    tree afterwards and the git commands run, in order.  The deploy engine
    is missing from the sources. *)
Definition deploy (cfg : Config) (world : World) (req : DeployRequest) (w : WorkTree)
  : DeploymentResult * WorkTree * list GitCmd :=
  let branch := request_branch req in
  if negb (allowed cfg branch) then
    (no_deploy (Rejected "branch not allowed") [], w, [ListBranches])
  else
    match fetch_step world branch w with
    | inr f => (no_deploy (Failed f) [], w, [ListBranches; FetchRemote])
    | inl (w1, ws) =>
        match switch_step world branch w1 with
        | inr f => (no_deploy (Failed f) ws, w1, [ListBranches; FetchRemote])
        | inl (w2, cmds) =>
            ({| outcome := Success;
                resolved_sha := commit_sha <$> head w2;
                warnings := ws;
                hook_error :=
                  match post_hook cfg with
                  | Some _ => hook_failure world
                  | None => None
                  end |},
             w2, [ListBranches; FetchRemote] ++ cmds)
        end
    end.

(** *** Branch cleanup (section 4.5) *)

(** Modelled from the spec: the local branch names of a working tree, in
    the order git enumerates them; the git wrapper is missing from the
    sources. *)
Definition local_names (w : WorkTree) : list string :=
  (map_to_list (locals w)).*1.

(** Modelled from the spec: [cleanup] (section 4.5), "enumerate local
    branches, exclude the current active branch, delete every remaining
    local branch", best effort per branch: [refuses b] says that git
    refuses to delete [b].  It returns the names actually deleted and the
    active branch, the working tree afterwards and the git commands run.
    The cleanup endpoint is missing from the sources. *)
Definition cleanup (refuses : string -> bool) (w : WorkTree)
  : (list string * option string) * WorkTree * list GitCmd :=
  let candidates :=
    List.filter (fun b => negb (bool_decide (active w = Some b))) (local_names w) in
  let deleted := List.filter (fun b => negb (refuses b)) candidates in
  ((deleted, active w),
   {| head := head w; active := active w;
      locals := foldr delete (locals w) deleted;
      remote_refs := remote_refs w;
      upstream := upstream w; remote_urls := remote_urls w |},
   ListBranches :: List.map DeleteBranch candidates).

(** *** Repository inventory (section 4.2) *)

(** Modelled from the spec: the answer to the "non-destructive remote ref
    listing" of one repository: the refs, or a network failure with its
    message.  The git wrapper is missing from the sources. *)
Inductive RemoteListing :=
| Listed (refs : list string)
| Unreachable (message : string).

(** Modelled from the spec: a [ScanError] (section 7), "non-fatal,
    per-repository"; the inventory is missing from the sources. *)
Record ScanError := {
  error_folder : string;
  error_message : string
}.

(** Modelled from the spec: the status entry of one repository: its
    [Repository] view and the scan errors attached to it (section 7:
    "they attach to the affected repository's entry").  The inventory is
    missing from the sources. *)
Record StatusEntry := {
  entry_repo : Repository;
  entry_errors : list ScanError
}.

(** Modelled from the spec: the per-repository part of [scan]: "read HEAD
    to get active branch and SHA, read the latest commit's
    author/message/date, list local branches, attempt a non-destructive
    remote ref listing to populate remote branches"; a network failure
    becomes a [ScanError] of this entry and leaves the remote branches
    unpopulated.  The inventory is missing from the sources. *)
Definition status (net : string -> RemoteListing) (name : string) (w : WorkTree)
  : StatusEntry :=
  {| entry_repo :=
       {| folder := name;
          active_branch := active w;
          committed_date_str := commit_date <$> head w;
          sha := commit_sha <$> head w;
          author := commit_author <$> head w;
          commit_message := commit_text <$> head w;
          remotes := remote_urls w;
          local_branches := local_names w;
          remote_branches :=
            match net name with
            | Listed refs => refs
            | Unreachable _ => []
            end |};
     entry_errors :=
       match net name with
       | Listed _ => []
       | Unreachable m => [{| error_folder := name; error_message := m |}]
       end |}.

(** Modelled from the spec: "a subdirectory is included only if it
    contains a git metadata directory; non-repository folders are silently
    skipped"; the inventory is missing from the sources. *)
Definition scan_entry (net : string -> RemoteListing) (child : string * Entry)
  : option StatusEntry :=
  match child.2 with
  | GitDir w => Some (status net child.1 w)
  | _ => None
  end.

(** Modelled from the spec: the name of [p] when it is an immediate child
    of [root] ("no recursion, one level only"); the inventory is missing
    from the sources. *)
Definition child_name (root p : list string) : option string :=
  match last p with
  | Some n => if bool_decide (p = root ++ [n]) then Some n else None
  | None => None
  end.

(** Modelled from the spec: the enumeration of the immediate children of
    the DAGs root, in the order the directory lists them; the inventory is
    missing from the sources. *)
Definition children (root : list string) (disk : gmap (list string) Entry)
  : list (string * Entry) :=
  omap (fun pe => n ← child_name root pe.1; Some (n, pe.2)) (map_to_list disk).

(** Modelled from the spec: the status entries of a scan, one per
    repository found, in enumeration order; the inventory is missing from
    the sources. *)
Definition scan_entries (net : string -> RemoteListing)
    (root : list string) (disk : gmap (list string) Entry) : list StatusEntry :=
  omap (scan_entry net) (children root disk).

(** Modelled from the spec: the contract [scan(rootDir) -> [Repository],
    [ScanError]] of section 4.2; the inventory is missing from the
    sources. *)
Definition scan (net : string -> RemoteListing)
    (root : list string) (disk : gmap (list string) Entry)
  : list Repository * list ScanError :=
  let es := scan_entries net root disk in
  (entry_repo <$> es, concat (entry_errors <$> es)).

(** Modelled from the spec: the payload of the status endpoint for one
    entry (section 6: "the Repository view plus any scan errors"), with
    the deploy form the endpoint offers; the endpoint is missing from the
    sources. *)
Definition status_payload (e : StatusEntry) (f : DeployForm) : DeployPageData :=
  {| repo := entry_repo e;
     form := f;
     errors := Some (error_message <$> entry_errors e) |}.

(** *** Repository provisioner (section 4.6) *)

(** Modelled from the spec: the path separators a folder name must not
    contain; the provisioner is missing from the sources. *)
Definition is_separator (c : ascii) : bool :=
  match c with
  | "/"%char | "\"%char => true
  | _ => false
  end.

(** Modelled from the spec: "names containing path separators"; the
    provisioner is missing from the sources. *)
Fixpoint has_path_separator (name : string) : bool :=
  match name with
  | EmptyString => false
  | String c t => is_separator c || has_path_separator t
  end.

(** Modelled from the spec: "names containing [..] segments" (section
    4.6); the provisioner is missing from the sources. *)
Definition has_parent_segment (name : string) : bool :=
  bool_decide (".." ∈ Js.split_on is_separator name).

(** Modelled from the spec: "folder names containing [..]" (section 8);
    the provisioner is missing from the sources. *)
Fixpoint contains_dotdot (name : string) : bool :=
  match name with
  | EmptyString => false
  | String c t =>
      match t with
      | String d _ =>
          (Ascii.eqb c "." && Ascii.eqb d ".") || contains_dotdot t
      | EmptyString => false
      end
  end.

(** Modelled from the spec: path normalisation: empty and [.] segments
    vanish, [..] removes the segment before it; the provisioner is missing
    from the sources. *)
Definition normalize (segments : list string) : list string :=
  foldl (fun acc seg =>
           if bool_decide (seg = "") || bool_decide (seg = ".") then acc
           else if bool_decide (seg = "..") then removelast acc
           else acc ++ [seg])
        [] segments.

(** Modelled from the spec: names "that resolve to an existing path
    outside the DAGs root after normalization"; the provisioner is missing
    from the sources. *)
Definition escapes_root (root : list string) (disk : gmap (list string) Entry)
    (name : string) : bool :=
  let target := normalize (root ++ Js.split_on is_separator name) in
  negb (bool_decide (normalize root `prefix_of` target))
  && bool_decide (is_Some (disk !! target)).

(** Modelled from the spec: the folder-name validation, "mandatory and
    identical for both paths"; the provisioner is missing from the
    sources. *)
Definition valid_folder_name (root : list string) (disk : gmap (list string) Entry)
    (name : string) : bool :=
  negb (has_path_separator name)
  && negb (has_parent_segment name)
  && negb (contains_dotdot name)
  && negb (escapes_root root disk name).

(** Modelled from the spec: the filesystem operations of the provisioner:
    writing the key file, setting its permissions, cloning into the target
    directory; the provisioner is missing from the sources. *)
Inductive FsOp :=
| WriteFile (path : list string)
| SetMode (path : list string) (mode : N)
| CloneInto (path : list string).

(** Modelled from the spec: the result of the clone of a repository; the
    git wrapper is missing from the sources. *)
Inductive CloneResult :=
| Cloned (w : WorkTree)
| CloneFailed (detail : string).

(** Modelled from the spec: owner-only permissions, [0o600]. *)
Definition owner_only : N := 384.

(** Modelled from the spec: the clone step shared by both paths: on
    success the target directory holds the new working tree.  The
    provisioner is missing from the sources. *)
Definition clone_into (target : list string) (c : CloneResult)
    (disk : gmap (list string) Entry) (ops : list FsOp)
  : Outcome * gmap (list string) Entry * list FsOp :=
  match c with
  | Cloned w => (Success, <[target := GitDir w]> disk, ops ++ [CloneInto target])
  | CloneFailed d => (Failed (GitOperationError d), disk, ops ++ [CloneInto target])
  end.

(** Modelled from the spec: [addViaSSH(repoUrl, folderName, sshKeyBytes)]:
    validate the folder name, "persist the supplied key bytes to
    [<folderName>.key] beside the target clone directory with owner-only
    permissions, then clone the repository over SSH".  It returns the
    result, the disk afterwards and the filesystem operations performed.
    The provisioner is missing from the sources. *)
Definition addViaSSH (cfg : Config) (clone : CloneResult)
    (repoUrl folderName sshKeyBytes : string) (disk : gmap (list string) Entry)
  : Outcome * gmap (list string) Entry * list FsOp :=
  if negb (valid_folder_name (dags_root cfg) disk folderName) then
    (Rejected "invalid folder name", disk, [])
  else
    let key := dags_root cfg ++ [folderName +:+ ".key"] in
    let target := dags_root cfg ++ [folderName] in
    clone_into target clone
      (<[key := File sshKeyBytes owner_only]> disk)
      [WriteFile key; SetMode key owner_only].

(** Modelled from the spec: [addViaGitHubApp(repoFullName, folderName)]:
    the same validation, then "confirm the installation has access to the
    named repository before cloning over HTTPS; reject with a typed error
    if the app is not configured or the repository is not in the
    accessible set".  [accessible] is the list obtained with the
    installation token, or the failure of the token exchange.  The
    provisioner is missing from the sources. *)
Definition addViaGitHubApp (cfg : Config) (accessible : list string + string)
    (clone : CloneResult)
    (repoFullName folderName : string) (disk : gmap (list string) Entry)
  : Outcome * gmap (list string) Entry * list FsOp :=
  if negb (valid_folder_name (dags_root cfg) disk folderName) then
    (Rejected "invalid folder name", disk, [])
  else if negb (github_available cfg) then
    (Failed NotConfigured, disk, [])
  else
    match accessible with
    | inr e => (Failed (AuthenticationError e), disk, [])
    | inl names =>
        if bool_decide (repoFullName ∈ names)
        then clone_into (dags_root cfg ++ [folderName]) clone disk []
        else (Rejected "repository not accessible", disk, [])
    end.

End Backend.


(** ** pages/RepoList.tsx: the component *)

Module RepoListPage.

Import Http.


(** The [useState] cells of the component. *)
Record State := {
  repos : list Repository;
  loading : bool;
  error : option string
}.

Definition initial : State :=
  {| repos := []; loading := true; error := None |}.

(** [fetchRepos], up to the [await fetch]. *)
Definition fetchRepos : Request :=
  {| method := GET; url := "/deployment/api/repos"; headers := []; body := None |}.


(** What the component returns: the spinner, the error box, the "No
    repositories found" text, or the table with its rows. *)
Inductive Screen :=
| LoadingScreen
| ErrorScreen (text : string)
| EmptyScreen
| TableScreen (rows : list RepoList.Row).

(** The early returns [if (loading)] and [if (error)], then
    [repos.length === 0 ? ... : repos.map(...)]. *)
Definition render (st : State) : result Screen :=
  if loading st then Ok LoadingScreen
  else if Js.truthy_opt (error st)
  then Ok (ErrorScreen ("Error loading repositories: " +:+ Js.or_else (error st) ""))
  else if length (repos st) =? 0 then Ok EmptyScreen
  else rows ← mapM RepoList.render_row (repos st); mret (TableScreen rows).

End RepoListPage.

(** ** pages/Deploy.tsx: the message boxes and the life of the page *)

Module DeployFlow.

Import Http.

(** The message boxes of the page proper. *)
Inductive Box :=
| CleanupSuccess (text : string)
| CleanupError (text : string)
| DeploySuccess (text : string)
| DeployErrors (entries : list string)
| FetchErrors (entries : list string).

(** [{cleanupResponse?.success && cleanupResponse?.message && (...)}] and
    [{cleanupResponse?.error && (...)}]. *)
Definition cleanup_boxes (st : DeployPage.State) : list Box :=
  match DeployPage.cleanupResponse st with
  | None => []
  | Some r =>
      (if DeployPage.cr_success r && Js.truthy_opt (DeployPage.cr_message r)
       then [CleanupSuccess (Js.or_else (DeployPage.cr_message r) "")] else [])
      ++ (if Js.truthy_opt (DeployPage.cr_error r)
          then [CleanupError (Js.or_else (DeployPage.cr_error r) "")] else [])
  end.

(** [{deployResponse?.success && (...)}] and [{deployResponse?.errors &&
    (...)}]; an array is truthy whatever it holds. *)
Definition deploy_boxes (st : DeployPage.State) : list Box :=
  match DeployPage.deployResponse st with
  | None => []
  | Some r =>
      (if Js.truthy_opt (DeployPage.dr_success r)
       then [DeploySuccess (Js.or_else (DeployPage.dr_success r) "")] else [])
      ++ match DeployPage.dr_errors r with
         | Some es => [DeployErrors es]
         | None => []
         end
  end.

(** The message boxes of the page proper, in document order: the cleanup
    messages stand in the header row and once more below the deploy
    messages, before the remote fetch errors. *)
Definition boxes (st : DeployPage.State) (d : DeployPageData) : list Box :=
  cleanup_boxes st ++ deploy_boxes st ++ cleanup_boxes st
  ++ match DeployPage.fetch_error_block d with
     | Some es => [FetchErrors es]
     | None => []
     end.

(** What happens to a mounted page: the replies to its three requests and
    the user's actions on its controls. *)
Inductive Event :=
| StatusReplied (o : Outcome DeployPageData)
| DeployReplied (o : Outcome DeployPage.DeployReply)
| CleanupReplied (o : Outcome DeployPage.CleanupReply)
| Clicked (c : DeployPage.Control).

(** The page after [useEffect] ran [fetchDeployData] on mount. *)
Definition mount (dir : string) : DeployPage.State * list DeployPage.Effect :=
  DeployPage.fetchDeployData dir DeployPage.initial.

Definition step (dir : string) (ev : Event) (st : DeployPage.State)
  : DeployPage.State * list DeployPage.Effect :=
  match ev with
  | StatusReplied o => (DeployPage.on_status o st, [])
  | DeployReplied o => (DeployPage.on_deploy o st, [])
  | CleanupReplied o => DeployPage.on_cleanup o st
  | Clicked c => DeployPage.click dir c st
  end.

(** A sequence of events, with every effect asked for on the way. *)
Fixpoint run (dir : string) (evs : list Event) (st : DeployPage.State)
  : DeployPage.State * list DeployPage.Effect :=
  match evs with
  | [] => (st, [])
  | ev :: rest =>
      let '(st1, effs1) := step dir ev st in
      let '(st2, effs2) := run dir rest st1 in
      (st2, effs1 ++ effs2)
  end.

End DeployFlow.

(** * Vocabulary of the properties and sample data *)

(** The hash holds an occurrence of [#/status/] followed, up to the end of
    the hash, by the non-empty [name], which [.] matches throughout. *)
Definition status_pattern (hash name : string) : Prop :=
  exists before, hash = before +:+ "#/status/" +:+ name
                 /\ name <> "" /\ Js.all_dot name = true.

(** The request of [handleDeploy] for a folder and a branch. *)
Definition deploy_request (dir branch : string) : Http.Request :=
  {| Http.method := Http.POST;
     Http.url := "/deployment/deploy/" +:+ dir;
     Http.headers := [("Accept", "application/json")];
     Http.body := Some [("branches", Http.FText branch)] |}.

(** The status payload of a repository [teamA] with two local branches. *)
Definition teamA_repo : Repository :=
  {| folder := "teamA"; active_branch := Some "main";
     committed_date_str := None; sha := None; author := None;
     commit_message := None; remotes := [("origin", "git@host:teamA.git")];
     local_branches := ["main"; "feature-x"]; remote_branches := ["origin/main"] |}.


(** The deploy page of [teamA] once its status has arrived. *)
Definition teamA_page : DeployPage.State :=
  DeployPage.on_status
    (Http.Response true 200
       {| repo := teamA_repo;
          form := {| branches := ["origin/main"; "main"]; selected := "main" |};
          errors := None |})
    DeployPage.initial.

(** A repository without commits and without a checked-out branch. *)
Definition unborn_repo (name : string) : Repository :=
  {| folder := name; active_branch := None; committed_date_str := None;
     sha := None; author := None; commit_message := None;
     remotes := []; local_branches := []; remote_branches := [] |}.

(** The dialog offers the SSH method only: the flag is down and the SSH tab
    is the selected one. *)
Definition ssh_only (st : AddRepoModal.State) : Prop :=
  AddRepoModal.githubAvailable st = false /\ AddRepoModal.method st = AddRepoModal.ssh.

(** The flag is down only while the SSH tab is selected. *)
Definition flag_guards_method (st : AddRepoModal.State) : Prop :=
  AddRepoModal.githubAvailable st = false -> AddRepoModal.method st = AddRepoModal.ssh.

(** The event is a probe reply that raises the flag. *)
Definition raises_flag (ev : AddRepoModal.Event) : bool :=
  match ev with
  | AddRepoModal.ProbeReplied (Http.Response _ _ d) => AddRepoModal.available d
  | _ => false
  end.

(** The request belongs to the GitHub App method. *)
Definition github_request (r : Http.Request) : Prop :=
  Http.url r = AddRepoModal.add_github_url \/ Http.url r = AddRepoModal.github_list_url.

(** A configuration that lacks the private key of the GitHub App. *)
Definition no_github_app : Backend.Config :=
  {| Backend.url_prefix := "deployment"; Backend.dags_root := ["opt"; "airflow"; "dags"];
     Backend.post_hook := None; Backend.allowed_branches := None;
     Backend.gh_app_id := Some "123456"; Backend.gh_app_private_key := None;
     Backend.gh_app_installation_id := Some "12345678" |}.

(** The folder name is one the provisioner must refuse: it holds a path
    separator, or a [..] segment, or the text [..]. *)
Definition unsafe_folder_name (name : string) : Prop :=
  Backend.has_path_separator name = true
  \/ Backend.has_parent_segment name = true
  \/ Backend.contains_dotdot name = true.

(** A configuration with the three GitHub App settings and the allow-list
    [origin/main]. *)
Definition sample_config : Backend.Config :=
  {| Backend.url_prefix := "deployment"; Backend.dags_root := ["opt"; "airflow"; "dags"];
     Backend.post_hook := None; Backend.allowed_branches := Some ["origin/main"];
     Backend.gh_app_id := Some "123456"; Backend.gh_app_private_key := Some "LS0t";
     Backend.gh_app_installation_id := Some "12345678" |}.

(** A fresh working tree. *)
Definition empty_tree : Backend.WorkTree :=
  {| Backend.head := None; Backend.active := None; Backend.locals := ∅;
     Backend.remote_refs := ∅; Backend.upstream := ∅; Backend.remote_urls := [] |}.

(** A commit with the given SHA. *)
Definition commit (s : string) : Backend.Commit :=
  {| Backend.commit_sha := s; Backend.commit_author := "dev";
     Backend.commit_text := "change"; Backend.commit_date := "2024-01-01" |}.

(** The working tree of [teamA]: [main] is checked out, [feature-x] is a
    second local branch. *)
Definition teamA_tree : Backend.WorkTree :=
  {| Backend.head := Some (commit "aaa111");
     Backend.active := Some "main";
     Backend.locals := {[ "main" := commit "aaa111"; "feature-x" := commit "bbb222" ]};
     Backend.remote_refs := {[ "origin/main" := commit "aaa111" ]};
     Backend.upstream := {[ "main" := "origin/main" ]};
     Backend.remote_urls := [("origin", "git@host:teamA.git")] |}.

(** A reachable remote with a newer [origin/main] and a branch
    [origin/dev]. *)
Definition remote_ahead : Backend.World :=
  {| Backend.fetch_result :=
       Backend.Fetched {[ "origin/main" := commit "ccc333"; "origin/dev" := commit "ddd444" ]};
     Backend.switch_error := None;
     Backend.hook_failure := None |}.

(** A remote whose fetch fails. *)
Definition remote_down : Backend.World :=
  {| Backend.fetch_result := Backend.FetchFailed (Backend.GitOperationError "timeout");
     Backend.switch_error := None;
     Backend.hook_failure := None |}.

(** The reply of the cleanup endpoint that carries what [cleanup] returned:
    the deleted branch names and the active branch. *)
Definition cleanup_reply (out : list string * option string) : DeployPage.CleanupReply :=
  {| DeployPage.deleted_branches := Some out.1;
     DeployPage.reply_active_branch := out.2;
     DeployPage.cleanup_error := None |}.

(** A disk with the repository [teamA], its key file and a plain directory
    below the DAGs root. *)
Definition sample_disk : gmap (list string) Backend.Entry :=
  {[ ["opt"; "airflow"; "dags"; "teamA"] := Backend.GitDir teamA_tree;
     ["opt"; "airflow"; "dags"; "notes"] := Backend.PlainDir;
     ["opt"; "airflow"; "dags"; "teamA.key"] := Backend.File "KEY" Backend.owner_only;
     ["opt"; "airflow"; "dags"; "teamA"; "dags"] := Backend.PlainDir;
     ["etc"] := Backend.PlainDir ]}.



(** The status request of [fetchDeployData] for a folder. *)
Definition status_request (dir : string) : Http.Request :=
  {| Http.method := Http.GET;
     Http.url := "/deployment/api/status/" +:+ dir;
     Http.headers := [("Accept", "application/json")];
     Http.body := None |}.

(** The effect is a request to the deploy endpoint. *)
Definition is_deploy_fetch (e : DeployPage.Effect) : bool :=
  match e with
  | DeployPage.Fetch r =>
      bool_decide (is_Some (Js.strip_prefix "/deployment/deploy/" (Http.url r)))
  | DeployPage.ReloadAfter _ => false
  end.

(** The effect is a request to the cleanup endpoint. *)
Definition is_cleanup_fetch (e : DeployPage.Effect) : bool :=
  match e with
  | DeployPage.Fetch r =>
      bool_decide (is_Some (Js.strip_prefix "/deployment/api/cleanup-branches/" (Http.url r)))
  | DeployPage.ReloadAfter _ => false
  end.

(** The event is the reply to a deploy request. *)
Definition is_deploy_reply (ev : DeployFlow.Event) : bool :=
  match ev with
  | DeployFlow.DeployReplied _ => true
  | _ => false
  end.

(** The event is the reply to a cleanup request. *)
Definition is_cleanup_reply (ev : DeployFlow.Event) : bool :=
  match ev with
  | DeployFlow.CleanupReplied _ => true
  | _ => false
  end.

(** The selected branch is empty or one of the branches of the form that
    the page holds. *)
Definition offered (st : DeployPage.State) : Prop :=
  match DeployPage.data st with
  | Some d =>
      DeployPage.selectedBranch st = ""
      \/ DeployPage.selectedBranch st ∈ branches (form d)
  | None => DeployPage.selectedBranch st = ""
  end.

(** The box reports on a cleanup. *)
Definition is_cleanup_box (b : DeployFlow.Box) : bool :=
  match b with
  | DeployFlow.CleanupSuccess _ | DeployFlow.CleanupError _ => true
  | _ => false
  end.

(** The string holds a character that [trim] keeps. *)
Fixpoint has_visible_char (s : string) : bool :=
  match s with
  | EmptyString => false
  | String c t => negb (Js.is_trim_space c) || has_visible_char t
  end.

(** The request adds a repository (through either endpoint). *)
Definition is_add_request (r : Http.Request) : bool :=
  String.eqb (Http.url r) AddRepoModal.add_ssh_url
  || String.eqb (Http.url r) AddRepoModal.add_github_url.

(** The event ends a submission: its reply, or the closing of the dialog. *)
Definition ends_submission (ev : AddRepoModal.Event) : bool :=
  match ev with
  | AddRepoModal.SubmitReplied _ | AddRepoModal.CloseDialog => true
  | _ => false
  end.

(** The string holds a [/]. *)
Fixpoint has_slash (s : string) : bool :=
  match s with
  | EmptyString => false
  | String c t => Ascii.eqb "/" c || has_slash t
  end.

(** The fields that the selected method needs are all filled in. *)
Definition submit_ready (st : AddRepoModal.State) : Prop :=
  AddRepoModal.folderName st <> ""
  /\ ((AddRepoModal.method st = AddRepoModal.ssh
       /\ AddRepoModal.repoUrl st <> ""
       /\ is_Some (AddRepoModal.sshKeyFile st))
      \/ (AddRepoModal.method st = AddRepoModal.github
          /\ AddRepoModal.selectedGithubRepo st <> "")).


(** * Properties *)

(** ** Strings *)

Lemma append_cons (c : ascii) (s t : string) :
  String c s +:+ t = String c (s +:+ t).
Proof. reflexivity. Qed.

Lemma append_empty_l (t : string) : "" +:+ t = t.
Proof. reflexivity. Qed.

Lemma truthy_true_iff (s : string) : Js.truthy s = true <-> s <> "".
Proof. destruct s; simpl; split; congruence. Qed.

Lemma includes_true_iff (arr : list string) (x : string) :
  Js.includes arr x = true <-> x ∈ arr.
Proof.
  induction arr as [|y arr IH]; simpl.
  - split; [discriminate | intros H; inversion H].
  - destruct (String.eqb_spec y x) as [->|Hne].
    + split; [intros _; left | reflexivity].
    + rewrite IH. split; [intros H; by right|].
      intros H. inversion H; subst; [congruence | assumption].
Qed.

Lemma strip_prefix_Some (p s r : string) :
  Js.strip_prefix p s = Some r <-> s = p +:+ r.
Proof.
  revert s. induction p as [|a p IH]; intros s; simpl.
  - rewrite append_empty_l. split; congruence.
  - rewrite append_cons. destruct s as [|b s].
    + split; discriminate.
    + destruct (Ascii.eqb_spec a b) as [->|Hne].
      * rewrite IH. split; [intros ->; reflexivity | intros [=]; assumption].
      * split; [discriminate | intros [=]; congruence].
Qed.

Lemma dot_run_split (s run rest : string) :
  Js.dot_run s = (run, rest) -> s = run +:+ rest /\ Js.all_dot run = true.
Proof.
  revert run rest. induction s as [|c s IH]; intros run rest; simpl.
  - intros [= <- <-]. done.
  - destruct (Js.is_line_terminator c) eqn:Hc.
    + intros [= <- <-]. done.
    + destruct (Js.dot_run s) as [run' rest'] eqn:Hrun.
      intros [= <- <-]. destruct (IH _ _ eq_refl) as [-> Hall].
      simpl. rewrite Hc. done.
Qed.

Lemma dot_run_all_dot (s : string) :
  Js.all_dot s = true -> Js.dot_run s = (s, "").
Proof.
  induction s as [|c s IH]; simpl; [done|].
  destruct (Js.is_line_terminator c); simpl; [discriminate|].
  intros H. by rewrite IH.
Qed.

Lemma append_empty_r (s : string) : s +:+ "" = s.
Proof. induction s as [|c s IH]; [done|]. by rewrite append_cons, IH. Qed.

(** ** The router *)

Lemma match_at_Some (s g : string) :
  Router.match_at s = Some g <->
  s = "#/status/" +:+ g /\ g <> "" /\ Js.all_dot g = true.
Proof.
  unfold Router.match_at. split.
  - destruct (Js.strip_prefix "#/status/" s) as [rest|] eqn:Hp; [|discriminate].
    apply strip_prefix_Some in Hp.
    destruct (Js.dot_run rest) as [run tl] eqn:Hrun.
    apply dot_run_split in Hrun as [-> Hall].
    destruct run as [|c run]; [discriminate|].
    destruct tl; [|discriminate].
    intros [= <-]. rewrite append_empty_r in Hp. done.
  - intros (-> & Hne & Hall).
    assert (Js.strip_prefix "#/status/" ("#/status/" +:+ g) = Some g) as ->
      by by apply strip_prefix_Some.
    rewrite (dot_run_all_dot _ Hall). by destruct g.
Qed.

Lemma status_match_here (s g : string) :
  Router.match_at s = Some g -> Router.status_match s = Some g.
Proof. intros H. destruct s; cbn [Router.status_match]; by rewrite H. Qed.

Lemma status_match_sound (hash g : string) :
  Router.status_match hash = Some g -> status_pattern hash g.
Proof.
  induction hash as [|c hash IH]; simpl.
  - discriminate.
  - destruct (Router.match_at (String c hash)) eqn:Hm.
    + intros [= ->]. apply match_at_Some in Hm as (H & ? & ?).
      exists "". done.
    + intros H. destruct (IH H) as (before & -> & ? & ?).
      exists (String c before). done.
Qed.

Lemma status_match_complete (hash name : string) :
  status_pattern hash name -> exists g, Router.status_match hash = Some g.
Proof.
  intros (before & -> & Hne & Hall).
  induction before as [|c before IH].
  - rewrite append_empty_l. exists name.
    apply status_match_here, match_at_Some. done.
  - rewrite append_cons. simpl.
    destruct (Router.match_at _); [eauto | exact IH].
Qed.

Lemma status_match_anchored (name : string) :
  name <> "" -> Js.all_dot name = true ->
  Router.status_match ("#/status/" +:+ name) = Some name.
Proof.
  intros Hne Hall. apply status_match_here, match_at_Some. done.
Qed.

Lemma status_match_nonempty (hash g : string) :
  Router.status_match hash = Some g -> Js.truthy g = true.
Proof.
  intros H. apply status_match_sound in H as (_ & _ & Hne & _).
  by apply truthy_true_iff.
Qed.

Lemma handleHashChange_deploy_iff (hash : string) :
  Router.handleHashChange hash = Router.deploy <->
  exists g, Router.status_match hash = Some g.
Proof.
  unfold Router.handleHashChange.
  destruct (Router.status_match hash) as [g|] eqn:Hm.
  - rewrite (status_match_nonempty _ _ Hm). split; eauto.
  - split; [discriminate | intros [g [=]]].
Qed.

Lemma folder_of_hash_match (hash g : string) :
  Router.status_match hash = Some g -> DeployPage.folder_of_hash hash = g.
Proof.
  intros Hm. unfold DeployPage.folder_of_hash. rewrite Hm. simpl.
  by rewrite (status_match_nonempty _ _ Hm).
Qed.

Lemma folder_of_hash_no_match (hash : string) :
  Router.status_match hash = None -> DeployPage.folder_of_hash hash = "".
Proof. intros Hm. unfold DeployPage.folder_of_hash. by rewrite Hm. Qed.

(** The search is not anchored at the start of the hash: what precedes the
    occurrence of [#/status/] is ignored. *)
Example status_match_searches :
  Router.handleHashChange "##/status/teamA" = Router.deploy
  /\ DeployPage.folder_of_hash "##/status/teamA" = "teamA".
Proof. split; reflexivity. Qed.

(** The leftmost occurrence wins and its group runs to the end. *)
Example status_match_leftmost :
  DeployPage.folder_of_hash "#/status/a#/status/b" = "a#/status/b".
Proof. reflexivity. Qed.

Example status_match_needs_a_name :
  Router.handleHashChange "#/status/" = Router.repos
  /\ Router.handleHashChange "#/repos" = Router.repos.
Proof. split; reflexivity. Qed.

(** C8. For every hash string the router renders the Deploy view if and
    only if the hash matches [#/status/<non-empty folder name>] in the sense
    of [String.prototype.match]: the hash holds [#/status/] followed, up to
    its end, by a non-empty name that [.] matches (no line terminator).
    Every other hash, the empty one included, gives the repository list.
    The Deploy view reads its folder name with the same pattern: it is
    non-empty exactly when the router shows the Deploy view, and it is then
    a name for which the pattern holds. *)
Theorem router_deploy_view_iff_status_pattern (hash : string) (st : Router.State) :
  (Router.render (Router.on_hash hash st) = Router.deploy
     <-> exists name, status_pattern hash name)
  /\ (Router.render (Router.on_hash hash st) = Router.repos
     <-> ~ exists name, status_pattern hash name)
  /\ Router.render (Router.on_hash "" st) = Router.repos
  /\ (Router.render (Router.on_hash hash st) = Router.deploy
     <-> DeployPage.folder_of_hash hash <> "")
  /\ (DeployPage.folder_of_hash hash <> ""
     -> status_pattern hash (DeployPage.folder_of_hash hash))
  /\ (forall name, name <> "" -> Js.all_dot name = true ->
        Router.render (Router.on_hash ("#/status/" +:+ name) st) = Router.deploy
        /\ DeployPage.folder_of_hash ("#/status/" +:+ name) = name).
Proof.
  unfold Router.render, Router.on_hash. simpl.
  assert (Router.handleHashChange hash = Router.deploy
          <-> exists name, status_pattern hash name) as Hiff.
  { rewrite handleHashChange_deploy_iff. split.
    - intros [g Hg]. exists g. by apply status_match_sound.
    - intros [name Hp]. by eapply status_match_complete. }
  split; [exact Hiff|]. split; [|split; [reflexivity|]].
  { rewrite <- Hiff. destruct (Router.handleHashChange hash); split; congruence. }
  split; [|split].
  - rewrite handleHashChange_deploy_iff.
    destruct (Router.status_match hash) as [g|] eqn:Hm.
    + rewrite (folder_of_hash_match _ _ Hm).
      pose proof (status_match_nonempty _ _ Hm) as Ht%truthy_true_iff.
      split; eauto.
    + rewrite (folder_of_hash_no_match _ Hm). split; [intros [g [=]]|done].
  - destruct (Router.status_match hash) as [g|] eqn:Hm.
    + rewrite (folder_of_hash_match _ _ Hm). intros _. by apply status_match_sound.
    + rewrite (folder_of_hash_no_match _ Hm). done.
  - intros name Hne Hall.
    pose proof (status_match_anchored name Hne Hall) as Hm. split.
    + apply handleHashChange_deploy_iff. eauto.
    + by apply folder_of_hash_match.
Qed.

(** ** The deploy page *)

Lemma initialBranch_member (f : DeployForm) :
  selected f ∈ branches f -> DeployPage.initialBranch f = selected f.
Proof.
  intros H. unfold DeployPage.initialBranch.
  by apply includes_true_iff in H as ->.
Qed.

Lemma initialBranch_first (f : DeployForm) (b : string) (rest : list string) :
  selected f ∉ branches f -> branches f = b :: rest ->
  DeployPage.initialBranch f = b.
Proof.
  intros H Hb. unfold DeployPage.initialBranch.
  destruct (Js.includes (branches f) (selected f)) eqn:Hi.
  - apply includes_true_iff in Hi. contradiction.
  - by rewrite Hb.
Qed.

Lemma initialBranch_empty (f : DeployForm) :
  branches f = [] -> DeployPage.initialBranch f = "".
Proof. intros Hb. unfold DeployPage.initialBranch. by rewrite Hb. Qed.

Lemma handleDeploy_sends (dir : string) (st : DeployPage.State) :
  (DeployPage.handleDeploy dir st).2 <> [] ->
  dir <> "" /\ DeployPage.selectedBranch st <> "" /\ is_Some (DeployPage.data st).
Proof.
  unfold DeployPage.handleDeploy.
  destruct (Js.truthy dir) eqn:Hd; simpl; [|done].
  destruct (Js.truthy (DeployPage.selectedBranch st)) eqn:Hb; simpl; [|done].
  destruct (DeployPage.data st) as [d|]; simpl; [|done].
  intros _. apply truthy_true_iff in Hd, Hb. eauto.
Qed.

(** C9. After a successful status fetch the selected branch is
    [form.selected] when it is one of [form.branches], otherwise the first
    of [form.branches], otherwise the empty string; and [handleDeploy]
    issues a request only when the folder name and the selected branch are
    both non-empty. *)
Theorem initial_branch_and_deploy_guard
    (st : DeployPage.State) (status : nat) (d : DeployPageData) :
  let st' := DeployPage.on_status (Http.Response true status d) st in
  DeployPage.data st' = Some d
  /\ (selected (form d) ∈ branches (form d) ->
      DeployPage.selectedBranch st' = selected (form d))
  /\ (selected (form d) ∉ branches (form d) ->
      forall b rest, branches (form d) = b :: rest ->
                     DeployPage.selectedBranch st' = b)
  /\ (branches (form d) = [] -> DeployPage.selectedBranch st' = "")
  /\ (forall dir s, (DeployPage.handleDeploy dir s).2 <> [] ->
                    dir <> "" /\ DeployPage.selectedBranch s <> "")
  /\ (forall dir s, (DeployPage.click dir DeployPage.DeployButton s).2 <> [] ->
                    dir <> "" /\ DeployPage.selectedBranch s <> "").
Proof.
  simpl. split; [reflexivity|].
  split; [apply initialBranch_member|].
  split; [intros H b rest; by apply initialBranch_first|].
  split; [apply initialBranch_empty|].
  split.
  - intros dir s H. apply handleDeploy_sends in H. tauto.
  - intros dir s. unfold DeployPage.click.
    destruct (DeployPage.render s); simpl; [done..|].
    destruct (DeployPage.deploy_disabled s); simpl; [done|].
    intros H. apply handleDeploy_sends in H. tauto.
Qed.

Example initial_branch_selected :
  DeployPage.initialBranch {| branches := ["main"; "dev"]; selected := "dev" |} = "dev".
Proof. reflexivity. Qed.

Example initial_branch_fallback :
  DeployPage.initialBranch {| branches := ["main"; "dev"]; selected := "gone" |} = "main".
Proof. reflexivity. Qed.

Example initial_branch_none :
  DeployPage.initialBranch {| branches := []; selected := "gone" |} = "".
Proof. reflexivity. Qed.

(** C5. A deploy started on a page with a non-empty folder name and a
    selected branch sends exactly one request: a POST to the deploy endpoint
    of that folder (the folder name is the last segment of the URL) whose
    form data is the single entry [branches] holding the selected branch.
    This is what the enabled Deploy button of the rendered page does. *)
Theorem deploy_sends_folder_and_one_branch
    (dir : string) (st : DeployPage.State) (d : DeployPageData) :
  dir <> "" -> DeployPage.selectedBranch st <> "" -> DeployPage.data st = Some d ->
  (DeployPage.handleDeploy dir st).2
    = [DeployPage.Fetch (deploy_request dir (DeployPage.selectedBranch st))]
  /\ Http.method (deploy_request dir (DeployPage.selectedBranch st)) = Http.POST
  /\ Http.url (deploy_request dir (DeployPage.selectedBranch st))
     = "/deployment/deploy/" +:+ dir
  /\ Http.body (deploy_request dir (DeployPage.selectedBranch st))
     = Some [("branches", Http.FText (DeployPage.selectedBranch st))]
  /\ (DeployPage.render st = DeployPage.MainScreen d ->
      DeployPage.deploying st = false ->
      (DeployPage.click dir DeployPage.DeployButton st).2
        = [DeployPage.Fetch (deploy_request dir (DeployPage.selectedBranch st))]).
Proof.
  intros Hd%truthy_true_iff Hb%truthy_true_iff Hdata.
  assert ((DeployPage.handleDeploy dir st).2
    = [DeployPage.Fetch (deploy_request dir (DeployPage.selectedBranch st))]) as Hsend.
  { unfold DeployPage.handleDeploy. by rewrite Hd, Hb, Hdata. }
  repeat split; try assumption.
  intros Hr Hdep. unfold DeployPage.click. rewrite Hr.
  unfold DeployPage.deploy_disabled. by rewrite Hb, Hdep.
Qed.

Lemma deploy_sends_folder_and_one_branch_witness :
  "teamA" <> "" /\ DeployPage.selectedBranch teamA_page <> ""
  /\ is_Some (DeployPage.data teamA_page)
  /\ (DeployPage.handleDeploy "teamA" teamA_page).2
     = [DeployPage.Fetch (deploy_request "teamA" "main")].
Proof.
  split; [discriminate|]. split; [discriminate|]. split; [eexists; reflexivity|].
  refine (proj1 (deploy_sends_folder_and_one_branch "teamA" teamA_page _ _ _ eq_refl));
    discriminate.
Defined.

Lemma handleCleanupBranches_url (dir : string) (st : DeployPage.State) (r : Http.Request) :
  DeployPage.Fetch r ∈ (DeployPage.handleCleanupBranches dir st).2 ->
  Http.url r = "/deployment/api/cleanup-branches/" +:+ dir.
Proof.
  unfold DeployPage.handleCleanupBranches.
  destruct (Js.truthy dir); simpl; intros H.
  - apply list_elem_of_singleton in H. by injection H as ->.
  - inversion H.
Qed.

Lemma handleDeploy_url (dir : string) (st : DeployPage.State) (r : Http.Request) :
  DeployPage.Fetch r ∈ (DeployPage.handleDeploy dir st).2 ->
  Http.url r = "/deployment/deploy/" +:+ dir.
Proof.
  unfold DeployPage.handleDeploy.
  destruct (_ || _); simpl; intros H.
  - inversion H.
  - apply list_elem_of_singleton in H. by injection H as ->.
Qed.

Lemma cleanup_disabled_iff (st : DeployPage.State) :
  DeployPage.cleanup_disabled st = true <->
  DeployPage.cleaningUp st = true
  \/ DeployPage.local_branches_of (DeployPage.data st) = None
  \/ exists l, DeployPage.local_branches_of (DeployPage.data st) = Some l
               /\ length l <= 1.
Proof.
  unfold DeployPage.cleanup_disabled.
  destruct (DeployPage.cleaningUp st); simpl; [split; auto|].
  destruct (DeployPage.local_branches_of (DeployPage.data st)) as [l|].
  - rewrite Nat.leb_le. split.
    + intros H. right. right. eauto.
    + intros [H|[H|(l' & [= <-] & H)]]; [discriminate..|assumption].
  - split; auto.
Qed.

(** C10. The Cleanup Branches button is disabled exactly when a cleanup is
    in progress, or [local_branches] is missing, or it has one or no entry;
    so a request to the cleanup endpoint leaves the page only while the
    page's data lists at least two local branches and no cleanup is in
    progress. *)
Theorem cleanup_request_needs_two_local_branches
    (dir : string) (st : DeployPage.State) :
  (DeployPage.cleanup_disabled st = true <->
     DeployPage.cleaningUp st = true
     \/ DeployPage.local_branches_of (DeployPage.data st) = None
     \/ exists l, DeployPage.local_branches_of (DeployPage.data st) = Some l
                  /\ length l <= 1)
  /\ (forall c r,
        DeployPage.Fetch r ∈ (DeployPage.click dir c st).2 ->
        Http.url r = "/deployment/api/cleanup-branches/" +:+ dir ->
        DeployPage.cleaningUp st = false
        /\ exists d, DeployPage.data st = Some d
                     /\ 2 <= length (local_branches (repo d))).
Proof.
  split; [apply cleanup_disabled_iff|].
  intros c r Hin Hurl. unfold DeployPage.click in Hin.
  destruct (DeployPage.render st) as [| |d]; simpl in Hin; [inversion Hin..|].
  destruct c as [| |b].
  - destruct (DeployPage.deploy_disabled st); [inversion Hin|].
    apply handleDeploy_url in Hin. rewrite Hin in Hurl.
    vm_compute in Hurl. discriminate.
  - destruct (DeployPage.cleanup_disabled st) eqn:Hdis; [inversion Hin|].
    unfold DeployPage.cleanup_disabled in Hdis.
    destruct (DeployPage.cleaningUp st); [discriminate|]. split; [done|].
    destruct (DeployPage.data st) as [d'|]; simpl in Hdis; [|discriminate].
    exists d'. split; [done|]. apply Nat.leb_gt in Hdis. lia.
  - destruct (Js.includes _ _); inversion Hin.
Qed.

(** With two local branches the button sends the cleanup request. *)
Example cleanup_click_two_branches :
  (DeployPage.click "teamA" DeployPage.CleanupButton teamA_page).2
  = [DeployPage.Fetch
       {| Http.method := Http.POST;
          Http.url := "/deployment/api/cleanup-branches/teamA";
          Http.headers := [("Accept", "application/json")];
          Http.body := None |}].
Proof. reflexivity. Qed.

(** With the active branch as only local branch the button is disabled. *)
Example cleanup_click_one_branch :
  let page :=
    DeployPage.on_status
      (Http.Response true 200
         {| repo := {| folder := "teamA"; active_branch := Some "main";
                       committed_date_str := None; sha := None; author := None;
                       commit_message := None; remotes := [];
                       local_branches := ["main"]; remote_branches := [] |};
            form := {| branches := ["main"]; selected := "main" |};
            errors := None |})
      DeployPage.initial in
  DeployPage.cleanup_disabled page = true
  /\ (DeployPage.click "teamA" DeployPage.CleanupButton page).2 = [].
Proof. split; reflexivity. Qed.

(** ** The status contract: the [Repository] view *)

Lemma hash_cell_ok (r : Repository) :
  RepoList.hash_cell r =
  Ok (match sha r with
      | Some (String c h) => Code (String.substring 0 8 (String c h))
      | _ => Text "-"
      end).
Proof.
  unfold RepoList.hash_cell. destruct (sha r) as [[|c h]|]; reflexivity.
Qed.

(** C6. A [Repository] of the status contract is made of a folder name, a
    nullable active branch, committed timestamp, SHA, author and commit
    message, a list of (remote name, URL) pairs, a list of local branch
    names and a list of remote branch refs.  Both pages render every such
    value without throwing, whichever nullable fields are null: the list
    shows [-] for a null field (and the first eight characters of a SHA),
    the deploy page renders nothing for it. *)
Theorem repository_view_renders_null_fields
    (name : string) (branch date hash who message : option string)
    (remote_pairs : list (string * string)) (locals refs : list string) :
  let r := {| folder := name; active_branch := branch;
              committed_date_str := date; sha := hash; author := who;
              commit_message := message; remotes := remote_pairs;
              local_branches := locals; remote_branches := refs |} in
  RepoList.render_row r =
    Ok {| RepoList.cell_folder := Text name;
          RepoList.cell_branch := Text (Js.or_else branch "-");
          RepoList.cell_committed := Text (Js.or_else date "-");
          RepoList.cell_hash :=
            match hash with
            | Some (String c h) => Code (String.substring 0 8 (String c h))
            | _ => Text "-"
            end;
          RepoList.cell_author := Text (Js.or_else who "-") |}
  /\ RepoList.render_row (unborn_repo name) =
       Ok {| RepoList.cell_folder := Text name;
             RepoList.cell_branch := Text "-";
             RepoList.cell_committed := Text "-";
             RepoList.cell_hash := Text "-";
             RepoList.cell_author := Text "-" |}
  /\ DeployPage.render_details r =
       {| DeployPage.row_hash := jsx_child hash;
          DeployPage.row_message := jsx_child message;
          DeployPage.row_author := jsx_child who;
          DeployPage.row_committed := jsx_child date;
          DeployPage.row_active := jsx_child branch;
          DeployPage.row_local := Text <$> locals;
          DeployPage.row_remotes := (fun p => (Text p.1, Text p.2)) <$> remote_pairs |}
  /\ jsx_child None = []
  /\ (forall st status f errs,
        DeployPage.error st = None ->
        DeployPage.render
          (DeployPage.on_status
             (Http.Response true status {| repo := r; form := f; errors := errs |}) st)
        = DeployPage.MainScreen {| repo := r; form := f; errors := errs |}).
Proof.
  intros r. split; [|split; [reflexivity|split; [|split; [reflexivity|]]]].
  - unfold RepoList.render_row. rewrite hash_cell_ok. reflexivity.
  - unfold DeployPage.render_details. simpl. f_equal.
    apply map_ext. by intros [].
  - intros st status f errs He. unfold DeployPage.render. simpl. by rewrite He.
Qed.

Example short_hash_in_list :
  RepoList.hash_cell
    {| folder := "teamA"; active_branch := Some "main";
       committed_date_str := None; sha := Some "0123456789abcdef";
       author := None; commit_message := None; remotes := [];
       local_branches := ["main"]; remote_branches := [] |}
  = Ok (Code "01234567").
Proof. reflexivity. Qed.

(** The guard of [hash_cell] is what keeps [substring] away from [null]. *)
Example substring_of_null_throws :
  exists e, js_substring None 0 8 = Throw e.
Proof. eexists. reflexivity. Qed.

(** ** The "add repository" dialog and the GitHub-availability probe *)

Ltac dialog_cases :=
  repeat match goal with
         | |- context [if ?b then _ else _] => destruct b eqn:?
         | |- context [match ?o with Http.Threw _ => _ | Http.Response _ _ _ => _ end] =>
             destruct o as [?|[] ? ?]
         | H : bool_decide _ = true |- _ => apply bool_decide_eq_true in H
         | H : bool_decide _ = false |- _ => apply bool_decide_eq_false in H
         end.

Lemma fetchGithubRepos_flag (isOpen : bool) (st : AddRepoModal.State) :
  AddRepoModal.githubAvailable (AddRepoModal.fetchGithubRepos isOpen st).1
    = AddRepoModal.githubAvailable st
  /\ AddRepoModal.method (AddRepoModal.fetchGithubRepos isOpen st).1
    = AddRepoModal.method st.
Proof. unfold AddRepoModal.fetchGithubRepos. dialog_cases; done. Qed.

Lemma fetchGithubRepos_requests (isOpen : bool) (st : AddRepoModal.State) :
  AddRepoModal.githubAvailable st = false ->
  (AddRepoModal.fetchGithubRepos isOpen st).2 = [].
Proof.
  intros H. unfold AddRepoModal.fetchGithubRepos. rewrite H.
  rewrite andb_false_r. simpl. dialog_cases; done.
Qed.

Lemma rerun_effect_flag (isOpen : bool) (before after : AddRepoModal.State) :
  AddRepoModal.githubAvailable (AddRepoModal.rerun_effect isOpen before after).1
    = AddRepoModal.githubAvailable after
  /\ AddRepoModal.method (AddRepoModal.rerun_effect isOpen before after).1
    = AddRepoModal.method after.
Proof.
  unfold AddRepoModal.rerun_effect.
  destruct (_ && _); [done | apply fetchGithubRepos_flag].
Qed.

Lemma rerun_effect_requests (isOpen : bool) (before after : AddRepoModal.State) :
  AddRepoModal.githubAvailable after = false ->
  (AddRepoModal.rerun_effect isOpen before after).2 = [].
Proof.
  intros H. unfold AddRepoModal.rerun_effect.
  destruct (_ && _); [done | by apply fetchGithubRepos_requests].
Qed.

Lemma handleSubmit_flag (st : AddRepoModal.State) :
  AddRepoModal.githubAvailable (AddRepoModal.handleSubmit st).1
    = AddRepoModal.githubAvailable st
  /\ AddRepoModal.method (AddRepoModal.handleSubmit st).1 = AddRepoModal.method st.
Proof.
  unfold AddRepoModal.handleSubmit.
  destruct (AddRepoModal.method st) eqn:Hm, (AddRepoModal.sshKeyFile st);
    dialog_cases; done.
Qed.

Lemma handleSubmit_ssh_requests (st : AddRepoModal.State) (r : Http.Request) :
  AddRepoModal.method st = AddRepoModal.ssh ->
  r ∈ (AddRepoModal.handleSubmit st).2 ->
  Http.url r = AddRepoModal.add_ssh_url /\ Http.method r = Http.POST.
Proof.
  intros Hm. unfold AddRepoModal.handleSubmit. rewrite Hm.
  destruct (AddRepoModal.sshKeyFile st); dialog_cases; simpl; intros H;
    try (by inversion H).
  apply list_elem_of_singleton in H. by subst.
Qed.

Lemma step_flag_guards_method (isOpen : bool) (ev : AddRepoModal.Event)
    (st : AddRepoModal.State) :
  flag_guards_method st -> flag_guards_method (AddRepoModal.step isOpen ev st).1.
Proof.
  unfold flag_guards_method. intros Hinv.
  destruct ev; unfold AddRepoModal.step;
    try (destruct (_ && _) eqn:Hguard; simpl; [|exact Hinv]);
    try (destruct isOpen eqn:Hopen; simpl; [|exact Hinv]).
  - destruct (rerun_effect_flag isOpen st (AddRepoModal.on_github_available o st))
      as [-> ->].
    destruct o as [?|ok status d]; simpl; [exact Hinv|].
    destruct (AddRepoModal.available d); simpl; [discriminate|done].
  - simpl. destruct o as [?|[] ? ?]; exact Hinv.
  - simpl. destruct o as [?|[] ? ?]; exact Hinv.
  - by destruct (rerun_effect_flag true st (AddRepoModal.setMethod AddRepoModal.ssh st))
      as [-> ->].
  - destruct (rerun_effect_flag isOpen st (AddRepoModal.setMethod AddRepoModal.github st))
      as [-> ->]. simpl.
    apply andb_true_iff in Hguard as [_ Hg].
    unfold AddRepoModal.github_tab_disabled in Hg.
    destruct (AddRepoModal.githubAvailable st); [discriminate|discriminate].
  - destruct (handleSubmit_flag st) as [-> ->]. exact Hinv.
  - by destruct (rerun_effect_flag true st (AddRepoModal.handleClose st)) as [-> ->].
  - exact Hinv.
  - exact Hinv.
  - exact Hinv.
  - unfold AddRepoModal.handleGithubRepoSelect.
    destruct (Js.truthy (AddRepoModal.folderName st)); exact Hinv.
Qed.

Lemma ssh_request_not_github (r : Http.Request) :
  Http.url r = AddRepoModal.add_ssh_url -> ~ github_request r.
Proof. intros H [H'|H']; rewrite H in H'; discriminate. Qed.

Lemma step_ssh_only (isOpen : bool) (ev : AddRepoModal.Event)
    (st : AddRepoModal.State) :
  ssh_only st -> raises_flag ev = false ->
  ssh_only (AddRepoModal.step isOpen ev st).1
  /\ forall r, r ∈ (AddRepoModal.step isOpen ev st).2 -> ~ github_request r.
Proof.
  intros [Hflag Hm] Hev.
  assert (forall after,
    AddRepoModal.githubAvailable after = false ->
    AddRepoModal.method after = AddRepoModal.ssh ->
    ssh_only (AddRepoModal.rerun_effect isOpen st after).1
    /\ forall r, r ∈ (AddRepoModal.rerun_effect isOpen st after).2 -> ~ github_request r)
    as Hrerun.
  { intros after Ha Hb. split.
    - destruct (rerun_effect_flag isOpen st after) as [H1 H2].
      split; congruence.
    - rewrite (rerun_effect_requests _ _ _ Ha). intros r H. inversion H. }
  assert (ssh_only st /\ forall r : Http.Request, r ∈ [] -> ~ github_request r)
    as Hsame.
  { split; [done|]. intros r H. inversion H. }
  destruct ev as [o|o|o| | | | |v|v|v|v]; unfold AddRepoModal.step.
  - destruct o as [m|ok status d]; simpl in *.
    + by apply Hrerun.
    + apply Hrerun; simpl; by rewrite ?Hev.
  - simpl. destruct o as [?|[] ? ?]; split; try done; intros r H; inversion H.
  - simpl. destruct o as [?|[] ? ?]; split; try done; intros r H; inversion H.
  - destruct isOpen; [|exact Hsame]. by apply Hrerun.
  - unfold AddRepoModal.github_tab_disabled. rewrite Hflag. simpl.
    rewrite andb_false_r. exact Hsame.
  - destruct (isOpen && negb (AddRepoModal.loading st)); [|exact Hsame]. split.
    + destruct (handleSubmit_flag st) as [H1 H2]. split; congruence.
    + intros r Hr. apply ssh_request_not_github.
      by apply (handleSubmit_ssh_requests st r Hm).
  - destruct isOpen; [|exact Hsame]. by apply Hrerun.
  - destruct (_ && _); exact Hsame.
  - destruct (_ && _); [|exact Hsame].
    split; [done|]. intros r H. inversion H.
  - destruct (_ && _); exact Hsame.
  - rewrite Hm. simpl. rewrite andb_false_r. exact Hsame.
Qed.

Lemma run_ssh_only (isOpen : bool) (evs : list AddRepoModal.Event)
    (st : AddRepoModal.State) :
  ssh_only st -> forallb (fun ev => negb (raises_flag ev)) evs = true ->
  ssh_only (AddRepoModal.run isOpen evs st).1
  /\ forall r, r ∈ (AddRepoModal.run isOpen evs st).2 -> ~ github_request r.
Proof.
  revert st. induction evs as [|ev evs IH]; intros st Hst Hevs; simpl.
  - split; [done|]. intros r H. inversion H.
  - simpl in Hevs. apply andb_true_iff in Hevs as [Hev%negb_true_iff Hevs].
    destruct (step_ssh_only isOpen ev st Hst Hev) as [Hst1 Hreq1].
    destruct (AddRepoModal.step isOpen ev st) as [st1 reqs1]. simpl in *.
    destruct (IH st1 Hst1 Hevs) as [Hst2 Hreq2].
    destruct (AddRepoModal.run isOpen evs st1) as [st2 reqs2]. simpl in *.
    split; [done|]. intros r [H|H]%elem_of_app; eauto.
Qed.

Lemma run_flag_guards_method (isOpen : bool) (evs : list AddRepoModal.Event)
    (st : AddRepoModal.State) :
  flag_guards_method st -> flag_guards_method (AddRepoModal.run isOpen evs st).1.
Proof.
  revert st. induction evs as [|ev evs IH]; intros st Hst; simpl; [done|].
  pose proof (step_flag_guards_method isOpen ev st Hst) as H1.
  destruct (AddRepoModal.step isOpen ev st) as [st1 reqs1]. simpl in *.
  specialize (IH st1 H1).
  by destruct (AddRepoModal.run isOpen evs st1) as [st2 reqs2].
Qed.

Lemma github_available_iff (cfg : Backend.Config) :
  Backend.github_available cfg = true <->
  is_Some (Backend.gh_app_id cfg)
  /\ is_Some (Backend.gh_app_private_key cfg)
  /\ is_Some (Backend.gh_app_installation_id cfg).
Proof.
  unfold Backend.github_available.
  rewrite !andb_true_iff, !bool_decide_eq_true. tauto.
Qed.

(** C7. The probe's flag is true exactly when the app id, the private key
    and the installation id are all present.  When the dialog receives a
    false flag it selects the SSH method and disables the GitHub App tab;
    from then on, until a probe reply raises the flag, the method stays SSH
    and no request of the GitHub App method (repository list, add through
    the app) is sent.  In every state the dialog can reach, a false flag
    means that the SSH method is selected, the GitHub App tab is disabled
    and a submission goes to the SSH endpoint. *)
Theorem github_flag_false_leaves_ssh_only :
  (forall cfg,
     Backend.github_available cfg = true <->
     is_Some (Backend.gh_app_id cfg)
     /\ is_Some (Backend.gh_app_private_key cfg)
     /\ is_Some (Backend.gh_app_installation_id cfg))
  /\ (forall cfg ok status st,
        Backend.github_available cfg = false ->
        let st' :=
          AddRepoModal.on_github_available
            (Http.Response ok status
               {| AddRepoModal.available := Backend.github_available cfg |}) st in
        AddRepoModal.githubAvailable st' = false
        /\ AddRepoModal.method st' = AddRepoModal.ssh
        /\ AddRepoModal.github_tab_disabled st' = true
        /\ forall isOpen evs,
             forallb (fun ev => negb (raises_flag ev)) evs = true ->
             AddRepoModal.method (AddRepoModal.run isOpen evs st').1 = AddRepoModal.ssh
             /\ AddRepoModal.github_tab_disabled (AddRepoModal.run isOpen evs st').1 = true
             /\ forall r, r ∈ (AddRepoModal.run isOpen evs st').2 -> ~ github_request r)
  /\ (forall isOpen evs,
        let st := (AddRepoModal.run isOpen evs AddRepoModal.initial).1 in
        AddRepoModal.githubAvailable st = false ->
        AddRepoModal.method st = AddRepoModal.ssh
        /\ AddRepoModal.github_tab_disabled st = true
        /\ (AddRepoModal.step isOpen AddRepoModal.ClickGithubTab st).1 = st
        /\ forall r, r ∈ (AddRepoModal.step isOpen AddRepoModal.SubmitForm st).2 ->
                     Http.url r = AddRepoModal.add_ssh_url).
Proof.
  split; [exact github_available_iff|]. split.
  - intros cfg ok status st Hcfg st'.
    assert (ssh_only st') as Hst'.
    { subst st'. unfold ssh_only. simpl. by rewrite Hcfg. }
    destruct Hst' as [Hflag Hm].
    split; [done|]. split; [done|].
    split; [unfold AddRepoModal.github_tab_disabled; by rewrite Hflag|].
    intros isOpen evs Hevs.
    destruct (run_ssh_only isOpen evs st' (conj Hflag Hm) Hevs) as [[Hf' Hm'] Hreqs].
    split; [done|].
    split; [unfold AddRepoModal.github_tab_disabled; by rewrite Hf'|done].
  - intros isOpen evs st Hflag.
    assert (flag_guards_method st) as Hinv.
    { apply run_flag_guards_method. by intros _. }
    pose proof (Hinv Hflag) as Hm.
    split; [done|].
    split; [unfold AddRepoModal.github_tab_disabled; by rewrite Hflag|].
    split.
    + unfold AddRepoModal.step, AddRepoModal.github_tab_disabled.
      rewrite Hflag. simpl. by rewrite andb_false_r.
    + intros r. unfold AddRepoModal.step.
      destruct (isOpen && negb (AddRepoModal.loading st)); [|intros H; inversion H].
      intros H. by apply (handleSubmit_ssh_requests st r Hm).
Qed.

Example two_settings_are_not_enough :
  Backend.github_available no_github_app = false.
Proof. reflexivity. Qed.

(** Without the app, clicking the GitHub App tab and submitting a filled SSH
    form sends one request, to the SSH endpoint. *)
Example dialog_without_github_app :
  let key := {| Http.file_name := "id_ed25519"; Http.file_content := "KEY" |} in
  (AddRepoModal.run true
     [AddRepoModal.ProbeReplied
        (Http.Response true 200
           {| AddRepoModal.available := Backend.github_available no_github_app |});
      AddRepoModal.ClickGithubTab;
      AddRepoModal.InputRepoUrl "git@host:teamB.git";
      AddRepoModal.InputFolderName "teamB";
      AddRepoModal.InputKeyFile (Some key);
      AddRepoModal.SubmitForm]
     AddRepoModal.initial).2
  = [AddRepoModal.post AddRepoModal.add_ssh_url
       [("repo_url", Http.FText "git@host:teamB.git");
        ("folder_name", Http.FText "teamB");
        ("ssh_key", Http.FFile key)]].
Proof. reflexivity. Qed.

(** ** The provisioner *)

Lemma split_on_head (is_sep : ascii -> bool) (s : string) :
  exists piece pieces, Js.split_on is_sep s = piece :: pieces.
Proof.
  destruct s as [|c t]; simpl; [eauto|].
  destruct (is_sep c); [eauto|].
  destruct (Js.split_on is_sep t); eauto.
Qed.

Lemma split_on_head_dot (is_sep : ascii -> bool) (s : string) (pieces : list string) :
  Js.split_on is_sep s = "." :: pieces -> exists t, s = String "." t.
Proof.
  destruct s as [|c t]; simpl; [discriminate|].
  destruct (is_sep c); [discriminate|].
  destruct (Js.split_on is_sep t); intros [= -> _]; eauto.
Qed.

(** A name with a [..] segment holds the text [..]: the two wordings of the
    rule agree on segments. *)
Lemma parent_segment_contains_dotdot (name : string) :
  Backend.has_parent_segment name = true -> Backend.contains_dotdot name = true.
Proof.
  unfold Backend.has_parent_segment. rewrite bool_decide_eq_true.
  induction name as [|c t IH]; simpl.
  - intros H%list_elem_of_singleton. discriminate.
  - assert (".." ∈ Js.split_on Backend.is_separator t ->
            match t with
            | String d _ =>
                Ascii.eqb c "." && Ascii.eqb d "." || Backend.contains_dotdot t
            | "" => false
            end = true) as Hrest.
    { intros H. specialize (IH H). destruct t; [discriminate|].
      rewrite IH. apply orb_true_r. }
    destruct (Backend.is_separator c).
    + intros [[=]|H]%elem_of_cons. by apply Hrest.
    + destruct (split_on_head Backend.is_separator t) as (piece & pieces & Hs).
      rewrite Hs. intros [[= <- <-]|H]%elem_of_cons.
      * apply split_on_head_dot in Hs as [t' ->]. reflexivity.
      * apply Hrest. rewrite Hs. by right.
Qed.

Lemma unsafe_folder_name_invalid (root : list string)
    (disk : gmap (list string) Backend.Entry) (name : string) :
  unsafe_folder_name name -> Backend.valid_folder_name root disk name = false.
Proof.
  unfold Backend.valid_folder_name. intros [-> | [-> | ->]]; simpl.
  - reflexivity.
  - by rewrite andb_false_r.
  - by rewrite andb_false_r.
Qed.

Lemma invalid_name_rejected_ssh (cfg : Backend.Config) (clone : Backend.CloneResult)
    (repoUrl name key : string) (disk : gmap (list string) Backend.Entry) :
  Backend.valid_folder_name (Backend.dags_root cfg) disk name = false ->
  Backend.addViaSSH cfg clone repoUrl name key disk
  = (Backend.Rejected "invalid folder name", disk, []).
Proof. intros H. unfold Backend.addViaSSH. by rewrite H. Qed.

Lemma invalid_name_rejected_github (cfg : Backend.Config)
    (accessible : list string + string) (clone : Backend.CloneResult)
    (fullName name : string) (disk : gmap (list string) Backend.Entry) :
  Backend.valid_folder_name (Backend.dags_root cfg) disk name = false ->
  Backend.addViaGitHubApp cfg accessible clone fullName name disk
  = (Backend.Rejected "invalid folder name", disk, []).
Proof. intros H. unfold Backend.addViaGitHubApp. by rewrite H. Qed.

(** The dialog checks only that the folder name is not empty: whatever else
    it holds reaches the endpoint of either method unchanged. *)
Lemma handleSubmit_forwards_folder_name (st : AddRepoModal.State) (r : Http.Request) :
  r ∈ (AddRepoModal.handleSubmit st).2 ->
  exists entries,
    Http.body r = Some entries
    /\ ("folder_name", Http.FText (AddRepoModal.folderName st)) ∈ entries.
Proof.
  unfold AddRepoModal.handleSubmit.
  destruct (AddRepoModal.method st), (AddRepoModal.sshKeyFile st);
    dialog_cases; simpl; intros H; try (by inversion H);
    apply list_elem_of_singleton in H; subst r; simpl;
    eexists; (split; [reflexivity|]); set_solver.
Qed.

(** C1. A folder name with a path separator or a [..] segment (or with [..]
    anywhere in it) is rejected by [addViaSSH] and by [addViaGitHubApp]
    alike, whatever the other arguments, the configuration and the disk
    are: the result is [Rejected], the disk is the one before the call and
    no filesystem operation was performed.  Both paths reject on the same
    validation: any name it refuses is rejected by both. *)
Theorem provisioning_rejects_unsafe_folder_names
    (cfg : Backend.Config) (disk : gmap (list string) Backend.Entry) (name : string) :
  Backend.has_path_separator name = true
  \/ Backend.has_parent_segment name = true
  \/ Backend.contains_dotdot name = true ->
  (forall clone repoUrl key,
     Backend.addViaSSH cfg clone repoUrl name key disk
     = (Backend.Rejected "invalid folder name", disk, []))
  /\ (forall accessible clone fullName,
        Backend.addViaGitHubApp cfg accessible clone fullName name disk
        = (Backend.Rejected "invalid folder name", disk, []))
  /\ (forall other,
        Backend.valid_folder_name (Backend.dags_root cfg) disk other = false ->
        (forall clone repoUrl key,
           Backend.addViaSSH cfg clone repoUrl other key disk
           = (Backend.Rejected "invalid folder name", disk, []))
        /\ (forall accessible clone fullName,
              Backend.addViaGitHubApp cfg accessible clone fullName other disk
              = (Backend.Rejected "invalid folder name", disk, []))).
Proof.
  intros Hbad.
  pose proof (unsafe_folder_name_invalid (Backend.dags_root cfg) disk name Hbad) as Hinv.
  split; [|split].
  - intros. by apply invalid_name_rejected_ssh.
  - intros. by apply invalid_name_rejected_github.
  - intros other Ho. split; intros.
    + by apply invalid_name_rejected_ssh.
    + by apply invalid_name_rejected_github.
Qed.

Lemma provisioning_rejects_unsafe_folder_names_witness :
  (Backend.has_path_separator "../etc" = true
   \/ Backend.has_parent_segment "../etc" = true
   \/ Backend.contains_dotdot "../etc" = true)
  /\ Backend.addViaSSH sample_config (Backend.Cloned empty_tree)
       "git@host:teamB.git" "../etc" "KEY" ∅
     = (Backend.Rejected "invalid folder name", ∅, [])
  /\ Backend.addViaGitHubApp sample_config (inl ["org/teamB"]) (Backend.Cloned empty_tree)
       "org/teamB" "../etc" ∅
     = (Backend.Rejected "invalid folder name", ∅, []).
Proof.
  assert (Backend.has_path_separator "../etc" = true
          \/ Backend.has_parent_segment "../etc" = true
          \/ Backend.contains_dotdot "../etc" = true) as Hbad
    by (left; reflexivity).
  split; [exact Hbad|].
  destruct (provisioning_rejects_unsafe_folder_names sample_config ∅ "../etc" Hbad)
    as (Hssh & Hgh & _).
  split; [apply Hssh | apply Hgh].
Defined.

Example dotdot_alone_is_refused :
  Backend.has_path_separator ".." = false
  /\ Backend.has_parent_segment ".." = true
  /\ Backend.valid_folder_name ["opt"; "airflow"; "dags"] ∅ ".." = false.
Proof. repeat split; reflexivity. Qed.

Example plain_name_is_accepted :
  Backend.valid_folder_name ["opt"; "airflow"; "dags"] ∅ "teamB" = true.
Proof. reflexivity. Qed.

(** ** The deploy engine *)

Lemma allowed_false_iff (cfg : Backend.Config) (branch : string) :
  Backend.allowed cfg branch = false <->
  exists l, Backend.allowed_branches cfg = Some l /\ branch ∉ l.
Proof.
  unfold Backend.allowed. destruct (Backend.allowed_branches cfg) as [l|].
  - rewrite bool_decide_eq_false. split; [eauto|].
    by intros (l' & [= <-] & H).
  - split; [discriminate | by intros (l' & [=] & _)].
Qed.

(** C2. When a branch allow-list is configured and the requested branch is
    not in it, [deploy] returns [Rejected "branch not allowed"] without a
    commit, the working tree (its HEAD SHA in particular) is the one before
    the call, and the only git command run is the branch listing of step 1:
    no mutating command ran. *)
Theorem deploy_rejects_branch_outside_allow_list
    (cfg : Backend.Config) (world : Backend.World) (req : Backend.DeployRequest)
    (w : Backend.WorkTree) (l : list string) :
  Backend.allowed_branches cfg = Some l ->
  Backend.request_branch req ∉ l ->
  exists res w' cmds,
    Backend.deploy cfg world req w = (res, w', cmds)
    /\ Backend.outcome res = Backend.Rejected "branch not allowed"
    /\ Backend.resolved_sha res = None
    /\ w' = w
    /\ (Backend.commit_sha <$> Backend.head w') = (Backend.commit_sha <$> Backend.head w)
    /\ Forall (fun c => Backend.mutating c = false) cmds.
Proof.
  intros Hl Hnot.
  assert (Backend.allowed cfg (Backend.request_branch req) = false) as Ha
    by (apply allowed_false_iff; eauto).
  unfold Backend.deploy. rewrite Ha. simpl.
  eexists _, _, _. split; [reflexivity|].
  repeat split. by repeat constructor.
Qed.

Lemma deploy_rejects_branch_outside_allow_list_witness :
  Backend.allowed_branches sample_config = Some ["origin/main"]
  /\ ("origin/dev" ∉ ["origin/main"])
  /\ exists res w' cmds,
       Backend.deploy sample_config remote_ahead
         {| Backend.request_folder := "teamA"; Backend.request_branch := "origin/dev" |}
         teamA_tree = (res, w', cmds)
       /\ Backend.outcome res = Backend.Rejected "branch not allowed"
       /\ w' = teamA_tree.
Proof.
  assert ("origin/dev" ∉ ["origin/main"]) as Hnot.
  { intros H%list_elem_of_singleton. discriminate. }
  split; [reflexivity|]. split; [exact Hnot|].
  destruct (deploy_rejects_branch_outside_allow_list sample_config remote_ahead
              {| Backend.request_folder := "teamA"; Backend.request_branch := "origin/dev" |}
              teamA_tree ["origin/main"] eq_refl Hnot)
    as (res & w' & cmds & Hd & Ho & _ & Hw & _).
  exists res, w', cmds. auto.
Defined.

(** The scenario of section 8: with the allow-list [origin/main], deploying
    [origin/main] succeeds with the fetched SHA. *)
Example deploy_allowed_branch :
  let out := Backend.deploy sample_config remote_ahead
               {| Backend.request_folder := "teamA"; Backend.request_branch := "origin/main" |}
               teamA_tree in
  Backend.outcome out.1.1 = Backend.Success
  /\ Backend.resolved_sha out.1.1 = Some "ccc333"
  /\ Backend.active out.1.2 = Some "origin/main".
Proof. vm_compute. repeat split. Qed.

(** The scenario of section 8: the fetch fails but the branch exists
    locally; the deploy succeeds with a warning. *)
Example deploy_with_remote_down :
  let cfg :=
    {| Backend.url_prefix := "deployment"; Backend.dags_root := ["dags"];
       Backend.post_hook := None; Backend.allowed_branches := None;
       Backend.gh_app_id := None; Backend.gh_app_private_key := None;
       Backend.gh_app_installation_id := None |} in
  let out := Backend.deploy cfg remote_down
               {| Backend.request_folder := "teamC"; Backend.request_branch := "feature-x" |}
               teamA_tree in
  Backend.outcome out.1.1 = Backend.Success
  /\ Backend.resolved_sha out.1.1 = Some "bbb222"
  /\ Backend.warnings out.1.1 = ["fetch failed"].
Proof. vm_compute. repeat split. Qed.

Lemma elem_of_local_names (w : Backend.WorkTree) (b : string) :
  b ∈ Backend.local_names w <-> is_Some (Backend.locals w !! b).
Proof.
  unfold Backend.local_names. rewrite list_elem_of_fmap. split.
  - intros ([b' c] & -> & H). apply elem_of_map_to_list in H. eauto.
  - intros [c H]. exists (b, c). split; [done|]. by apply elem_of_map_to_list.
Qed.

(** A fetch failure does not stop the deploy of a branch that exists
    locally: it succeeds with a warning. *)
Lemma deploy_local_branch_with_remote_down
    (cfg : Backend.Config) (world : Backend.World) (name branch : string)
    (w : Backend.WorkTree) (f : Backend.Failure) :
  Backend.allowed cfg branch = true ->
  Backend.fetch_result world = Backend.FetchFailed f ->
  Backend.switch_error world = None ->
  is_Some (Backend.locals w !! branch) ->
  let out := Backend.deploy cfg world
               {| Backend.request_folder := name; Backend.request_branch := branch |} w in
  Backend.outcome out.1.1 = Backend.Success
  /\ Backend.warnings out.1.1 = ["fetch failed"]
  /\ Backend.active out.1.2 = Some branch.
Proof.
  intros Ha Hf Hs Hl. unfold Backend.deploy. simpl. rewrite Ha. simpl.
  unfold Backend.fetch_step. rewrite Hf.
  rewrite (bool_decide_eq_true_2 _ Hl).
  unfold Backend.switch_step. rewrite Hs.
  destruct Hl as [tip Hl]. rewrite Hl.
  destruct (Backend.remote_refs w !! branch); [done|].
  destruct (Backend.upstream w !! branch) as [ref|]; [|done].
  by destruct (Backend.remote_refs w !! ref).
Qed.

(** ** Branch cleanup *)

Lemma elem_of_cleanup_deleted (refuses : string -> bool) (w : Backend.WorkTree)
    (b : string) :
  b ∈ (Backend.cleanup refuses w).1.1.1 <->
  is_Some (Backend.locals w !! b) /\ Backend.active w <> Some b /\ refuses b = false.
Proof.
  unfold Backend.cleanup. simpl.
  rewrite !list_elem_of_In, !filter_In, <- list_elem_of_In, elem_of_local_names.
  rewrite !negb_true_iff, bool_decide_eq_false. tauto.
Qed.

(** C3. [cleanup] returns the local branch names it actually deleted (a
    name is in the list exactly when it was a local branch before the call
    and is none after it) together with the active branch, which is the one
    of the working tree before and after the call; the active branch is not
    in the list, no delete command names it, and it still is a local branch
    with the same tip. *)
Theorem cleanup_never_deletes_active_branch
    (refuses : string -> bool) (w : Backend.WorkTree) :
  let out := Backend.cleanup refuses w in
  let deleted := out.1.1.1 in
  let reported := out.1.1.2 in
  let w' := out.1.2 in
  reported = Backend.active w
  /\ Backend.active w' = Backend.active w
  /\ Backend.head w' = Backend.head w
  /\ (forall b, b ∈ deleted <->
                is_Some (Backend.locals w !! b) /\ Backend.locals w' !! b = None)
  /\ (forall b, Backend.active w = Some b ->
                (b ∉ deleted)
                /\ (Backend.DeleteBranch b ∉ out.2)
                /\ Backend.locals w' !! b = Backend.locals w !! b)
  /\ (forall b, is_Some (Backend.locals w !! b) -> b ∉ deleted ->
                Backend.active w = Some b \/ refuses b = true)
  /\ DeployPage.deletedCount (cleanup_reply out.1.1) = length deleted
  /\ DeployPage.reply_active_branch (cleanup_reply out.1.1) = Backend.active w.
Proof.
  intros out deleted reported w'.
  split; [reflexivity|]. split; [reflexivity|]. split; [reflexivity|].
  cut ((forall b, b ∈ deleted <->
                  is_Some (Backend.locals w !! b) /\ Backend.locals w' !! b = None)
       /\ (forall b, Backend.active w = Some b ->
                  (b ∉ deleted)
                  /\ (Backend.DeleteBranch b ∉ out.2)
                  /\ Backend.locals w' !! b = Backend.locals w !! b)
       /\ (forall b, is_Some (Backend.locals w !! b) -> b ∉ deleted ->
                  Backend.active w = Some b \/ refuses b = true)).
  { intros (H1 & H2 & H3). repeat split; first [apply H1 | apply H2 | apply H3 | idtac];
      try done. }
  assert (forall b, Backend.locals w' !! b
                    = if bool_decide (b ∈ deleted) then None else Backend.locals w !! b)
    as Hlook.
  { intros b. subst w'. simpl. fold deleted. case_bool_decide.
    - by apply lookup_foldr_delete.
    - by apply lookup_foldr_delete_not_elem_of. }
  split; [|split].
  - intros b. rewrite Hlook. case_bool_decide as Hb.
    + split; [|done]. intros _. split; [|done].
      by apply elem_of_cleanup_deleted in Hb as [? _].
    + split; [done|]. intros [[c Hc] Hnone]. congruence.
  - intros b Hact. split; [|split].
    + intros Hb. apply elem_of_cleanup_deleted in Hb as (_ & Hne & _). done.
    + subst out. simpl. intros H. apply elem_of_cons in H as [[=]|H].
      apply list_elem_of_fmap in H as (b' & [= <-] & H).
      apply list_elem_of_In, filter_In in H as [_ H].
      apply negb_true_iff, bool_decide_eq_false in H. done.
    + rewrite Hlook. case_bool_decide as Hb; [|done].
      apply elem_of_cleanup_deleted in Hb as (_ & Hne & _). done.
  - intros b Hb Hnot.
    destruct (decide (Backend.active w = Some b)) as [|Hne]; [by left|right].
    destruct (refuses b) eqn:Hr; [done|exfalso].
    apply Hnot, elem_of_cleanup_deleted. done.
Qed.

(** The scenario of section 8: [teamA] has the local branches [main] and
    [feature-x] and [main] is active. *)
Example cleanup_teamA :
  (Backend.cleanup (fun _ => false) teamA_tree).1.1 = (["feature-x"], Some "main").
Proof. vm_compute. reflexivity. Qed.

(** A branch that git refuses to delete stays and is not reported. *)
Example cleanup_best_effort :
  (Backend.cleanup (String.eqb "feature-x") teamA_tree).1.1 = ([], Some "main").
Proof. vm_compute. reflexivity. Qed.

Lemma page_reports_cleanup (out : list string * option string) (status : nat)
    (st : DeployPage.State) :
  DeployPage.deletedCount (cleanup_reply out) = length out.1
  /\ DeployPage.cleanupResponse
       (DeployPage.on_cleanup (Http.Response true status (cleanup_reply out)) st).1
     = Some {| DeployPage.cr_success := true;
               DeployPage.cr_message := Some (DeployPage.cleanup_message (cleanup_reply out));
               DeployPage.cr_error := None |}.
Proof. split; reflexivity. Qed.

Example page_reports_cleanup_teamA :
  DeployPage.cleanup_message
    (cleanup_reply (Backend.cleanup (fun _ => false) teamA_tree).1.1)
  = "Successfully deleted 1 branch. Active branch: main".
Proof. vm_compute. reflexivity. Qed.

(** ** The inventory scan *)

Lemma scan_folders_whatever_the_network
    (net net' : string -> Backend.RemoteListing) (l : list (string * Backend.Entry)) :
  (fun e => folder (Backend.entry_repo e)) <$> omap (Backend.scan_entry net) l
  = (fun e => folder (Backend.entry_repo e)) <$> omap (Backend.scan_entry net') l.
Proof.
  induction l as [|[n e] l IH]; [done|]. simpl.
  unfold Backend.scan_entry at 1 3. simpl.
  destruct e as [| |w]; simpl; [exact IH..|]. f_equal. exact IH.
Qed.

Lemma trim_truthy (m : string) : Js.truthy (Js.trim m) = true -> Js.truthy m = true.
Proof. by destruct m. Qed.

(** C4. A scan reports every repository directory of the DAGs root, in the
    same order, whatever the network does: a remote that cannot be reached
    changes neither which repositories are reported nor their local data
    (active branch, SHA, local branches).  The failure becomes a
    [ScanError] in the entry of the repository it concerns, and only there.
    The deploy page shows such an entry with its error next to the
    repository details, a deploy of an offered branch can still be sent,
    and the deploy of a local branch succeeds although the fetch fails. *)
Theorem scan_errors_never_abort_a_scan
    (net : string -> Backend.RemoteListing) (root : list string)
    (disk : gmap (list string) Backend.Entry) :
  let entries := Backend.scan_entries net root disk in
  (forall name w,
     (name, Backend.GitDir w) ∈ Backend.children root disk ->
     Backend.status net name w ∈ entries)
  /\ (forall e, e ∈ entries ->
        exists name w, (name, Backend.GitDir w) ∈ Backend.children root disk
                       /\ e = Backend.status net name w)
  /\ (forall net',
        (fun e => folder (Backend.entry_repo e)) <$> Backend.scan_entries net' root disk
        = (fun e => folder (Backend.entry_repo e)) <$> entries)
  /\ Backend.scan net root disk
     = (Backend.entry_repo <$> entries, concat (Backend.entry_errors <$> entries))
  /\ (forall name w,
        let e := Backend.status net name w in
        folder (Backend.entry_repo e) = name
        /\ active_branch (Backend.entry_repo e) = Backend.active w
        /\ sha (Backend.entry_repo e) = (Backend.commit_sha <$> Backend.head w)
        /\ local_branches (Backend.entry_repo e) = Backend.local_names w
        /\ (forall m, net name = Backend.Unreachable m ->
              Backend.entry_errors e
              = [{| Backend.error_folder := name; Backend.error_message := m |}])
        /\ (forall refs, net name = Backend.Listed refs ->
              Backend.entry_errors e = []
              /\ remote_branches (Backend.entry_repo e) = refs))
  /\ (forall name w m f st status dir,
        net name = Backend.Unreachable m ->
        Js.truthy (Js.trim m) = true ->
        DeployPage.error st = None ->
        let page_data := Backend.status_payload (Backend.status net name w) f in
        let st' := DeployPage.on_status (Http.Response true status page_data) st in
        DeployPage.render st' = DeployPage.MainScreen page_data
        /\ DeployPage.fetch_error_block page_data = Some [m]
        /\ local_branches (repo page_data) = Backend.local_names w
        /\ (dir <> "" -> DeployPage.initialBranch f <> "" ->
            DeployPage.deploying st = false ->
            (DeployPage.click dir DeployPage.DeployButton st').2
            = [DeployPage.Fetch (deploy_request dir (DeployPage.initialBranch f))]))
  /\ (forall cfg world name branch w f,
        Backend.allowed cfg branch = true ->
        Backend.fetch_result world = Backend.FetchFailed f ->
        Backend.switch_error world = None ->
        branch ∈ Backend.local_names w ->
        Backend.outcome
          (Backend.deploy cfg world
             {| Backend.request_folder := name; Backend.request_branch := branch |} w).1.1
        = Backend.Success).
Proof.
  intros entries.
  split; [|split; [|split; [|split; [reflexivity|split; [|split]]]]];
    [| | | | |intros cfg world name branch w f Ha Hf Hs Hl%elem_of_local_names;
              by apply (deploy_local_branch_with_remote_down cfg world name branch w f)].
  - intros name w Hin. subst entries. unfold Backend.scan_entries.
    apply list_elem_of_omap. exists (name, Backend.GitDir w). done.
  - intros e He. subst entries. unfold Backend.scan_entries in He.
    apply list_elem_of_omap in He as ([name en] & Hin & Hs).
    unfold Backend.scan_entry in Hs. simpl in Hs.
    destruct en as [| |w]; [discriminate..|].
    injection Hs as <-. eauto.
  - intros net'. apply scan_folders_whatever_the_network.
  - intros name w e. subst e. repeat split.
    + intros m Hm. simpl. by rewrite Hm.
    + simpl. by rewrite H.
    + simpl. by rewrite H.
  - intros name w m f st status dir Hm Htrim He page_data st'.
    assert (DeployPage.render st' = DeployPage.MainScreen page_data) as Hrender.
    { subst st'. unfold DeployPage.render. simpl. by rewrite He. }
    split; [exact Hrender|]. split; [|split; [reflexivity|]].
    + subst page_data. unfold DeployPage.fetch_error_block. simpl.
      rewrite Hm. simpl. rewrite Htrim. simpl.
      by rewrite (trim_truthy _ Htrim).
    + intros Hdir%truthy_true_iff Hb%truthy_true_iff Hdep.
      unfold DeployPage.click. rewrite Hrender.
      unfold DeployPage.deploy_disabled, DeployPage.handleDeploy.
      subst st'. simpl. by rewrite Hb, Hdep, Hdir.
Qed.

(** One repository below the root; its remote is down: the scan still
    reports it, with its local branches and the error. *)
Example scan_with_remote_down :
  let out := Backend.scan (fun _ => Backend.Unreachable "ssh: connect timed out")
               ["opt"; "airflow"; "dags"] sample_disk in
  (folder <$> out.1) = ["teamA"]
  /\ (active_branch <$> out.1) = [Some "main"]
  /\ out.2 = [{| Backend.error_folder := "teamA";
                 Backend.error_message := "ssh: connect timed out" |}].
Proof. vm_compute. repeat split. Qed.

(** Only all-blank error lists hide the box of the page. *)
Example blank_errors_are_not_shown :
  DeployPage.fetch_error_block
    {| repo := teamA_repo; form := {| branches := []; selected := "" |};
       errors := Some [""; "   "] |} = None
  /\ DeployPage.fetch_error_block
       {| repo := teamA_repo; form := {| branches := []; selected := "" |};
          errors := Some [""; " x "] |} = Some [" x "].
Proof. split; reflexivity. Qed.

(** * Further properties of the client *)

(** ** The deploy page: loading and failing *)

Lemma truthy_false_empty (s : string) : Js.truthy s = false -> s = "".
Proof. by destruct s. Qed.

Lemma or_else_truthy (o : option string) (d : string) :
  d <> "" -> Js.or_else o d <> "".
Proof.
  intros Hd. destruct o as [s|]; simpl; [|done].
  destruct (Js.truthy s) eqn:Hs; [by apply truthy_true_iff|done].
Qed.

(** X1. When the router shows the Deploy view for a hash, the page mounted
    for that hash leaves its state untouched, shows the spinner and sends
    exactly one request: a GET for the status of the folder named in the
    hash.  When the router shows the list for a hash, a Deploy page mounted
    for that hash would send nothing and show "No repository specified". *)
Theorem deploy_view_fetches_status_of_hash_folder (hash : string) :
  (Router.handleHashChange hash = Router.deploy ->
   DeployFlow.mount (DeployPage.folder_of_hash hash)
   = (DeployPage.initial,
      [DeployPage.Fetch (status_request (DeployPage.folder_of_hash hash))])
   /\ DeployPage.render (DeployFlow.mount (DeployPage.folder_of_hash hash)).1
      = DeployPage.LoadingScreen)
  /\ (Router.handleHashChange hash = Router.repos ->
      (DeployFlow.mount (DeployPage.folder_of_hash hash)).2 = []
      /\ DeployPage.render (DeployFlow.mount (DeployPage.folder_of_hash hash)).1
         = DeployPage.ErrorScreen "No repository specified").
Proof.
  unfold DeployFlow.mount, DeployPage.fetchDeployData. split.
  - intros H. apply handleHashChange_deploy_iff in H as [g Hg].
    rewrite (folder_of_hash_match _ _ Hg), (status_match_nonempty _ _ Hg). done.
  - intros H.
    destruct (Router.status_match hash) as [g|] eqn:Hm.
    + assert (Router.handleHashChange hash = Router.deploy) as Hd
        by (apply handleHashChange_deploy_iff; eauto).
      congruence.
    + rewrite (folder_of_hash_no_match _ Hm). done.
Qed.







(** ** The deploy page: requests in flight *)

Lemma deploy_url_is_deploy (dir : string) :
  Js.strip_prefix "/deployment/deploy/" ("/deployment/deploy/" +:+ dir) = Some dir.
Proof. by apply strip_prefix_Some. Qed.

Lemma cleanup_url_is_cleanup (dir : string) :
  Js.strip_prefix "/deployment/api/cleanup-branches/"
    ("/deployment/api/cleanup-branches/" +:+ dir) = Some dir.
Proof. by apply strip_prefix_Some. Qed.

Lemma deploy_url_not_cleanup (dir : string) :
  Js.strip_prefix "/deployment/api/cleanup-branches/" ("/deployment/deploy/" +:+ dir) = None.
Proof. reflexivity. Qed.

Lemma cleanup_url_not_deploy (dir : string) :
  Js.strip_prefix "/deployment/deploy/" ("/deployment/api/cleanup-branches/" +:+ dir) = None.
Proof. reflexivity. Qed.

Lemma deploy_request_kind (dir branch : string) :
  is_deploy_fetch (DeployPage.Fetch (deploy_request dir branch)) = true
  /\ is_cleanup_fetch (DeployPage.Fetch (deploy_request dir branch)) = false.
Proof.
  unfold is_deploy_fetch, is_cleanup_fetch, deploy_request. cbn [Http.url].
  rewrite deploy_url_is_deploy, deploy_url_not_cleanup. split; reflexivity.
Qed.

Lemma cleanup_request_kind (dir : string) (r : Http.Request) :
  Http.url r = "/deployment/api/cleanup-branches/" +:+ dir ->
  is_cleanup_fetch (DeployPage.Fetch r) = true
  /\ is_deploy_fetch (DeployPage.Fetch r) = false.
Proof.
  intros Hr. unfold is_deploy_fetch, is_cleanup_fetch. rewrite Hr.
  rewrite cleanup_url_is_cleanup, cleanup_url_not_deploy. split; reflexivity.
Qed.

Lemma handleDeploy_effects (dir : string) (st : DeployPage.State) :
  (DeployPage.handleDeploy dir st
   = (st, []))
  \/ (DeployPage.deploying (DeployPage.handleDeploy dir st).1 = true
      /\ DeployPage.cleaningUp (DeployPage.handleDeploy dir st).1 = DeployPage.cleaningUp st
      /\ (DeployPage.handleDeploy dir st).2
         = [DeployPage.Fetch (deploy_request dir (DeployPage.selectedBranch st))]).
Proof.
  unfold DeployPage.handleDeploy. destruct (_ || _); [by left|by right].
Qed.

Lemma handleCleanupBranches_effects (dir : string) (st : DeployPage.State) :
  (DeployPage.handleCleanupBranches dir st = (st, []))
  \/ (DeployPage.cleaningUp (DeployPage.handleCleanupBranches dir st).1 = true
      /\ DeployPage.deploying (DeployPage.handleCleanupBranches dir st).1
         = DeployPage.deploying st
      /\ exists r, (DeployPage.handleCleanupBranches dir st).2 = [DeployPage.Fetch r]
                   /\ Http.url r = "/deployment/api/cleanup-branches/" +:+ dir).
Proof.
  unfold DeployPage.handleCleanupBranches. destruct (negb _); [by left|right].
  simpl. eauto.
Qed.

Lemma step_deploy_in_flight (dir : string) (ev : DeployFlow.Event) (st : DeployPage.State) :
  is_deploy_reply ev = false ->
  let out := DeployFlow.step dir ev st in
  (DeployPage.deploying st = true ->
   DeployPage.deploying out.1 = true /\ List.filter is_deploy_fetch out.2 = [])
  /\ (DeployPage.deploying st = false ->
      (DeployPage.deploying out.1 = false /\ List.filter is_deploy_fetch out.2 = [])
      \/ (DeployPage.deploying out.1 = true
          /\ length (List.filter is_deploy_fetch out.2) = 1)).
Proof.
  intros Hev. destruct ev as [o|o|o|c]; simpl; [|done| |].
  - destruct o as [m|[] status d]; simpl; split; intros H; auto.
  - destruct o as [m|[] status d]; simpl; split; intros H; auto.
  - unfold DeployPage.click.
    destruct (DeployPage.render st) as [| |d]; simpl; [split; auto..|].
    destruct c as [| |b].
    + unfold DeployPage.deploy_disabled.
      destruct (DeployPage.deploying st) eqn:Hd.
      * rewrite orb_true_r. simpl. split; [auto|done].
      * rewrite orb_false_r. split; [done|intros _].
        destruct (negb _); simpl; [left; auto|].
        destruct (handleDeploy_effects dir st) as [->|(H1 & _ & ->)]; [left; auto|].
        right. split; [done|]. cbn [List.filter].
        by rewrite (proj1 (deploy_request_kind dir _)).
    + destruct (DeployPage.cleanup_disabled st); simpl; [split; auto|].
      destruct (handleCleanupBranches_effects dir st) as [->|(_ & -> & r & -> & Hr)];
        [simpl; split; auto|].
      cbn [List.filter]. rewrite (proj2 (cleanup_request_kind dir r Hr)).
      split; auto.
    + destruct (Js.includes _ _); simpl; split; auto.
Qed.

Lemma step_cleanup_in_flight (dir : string) (ev : DeployFlow.Event) (st : DeployPage.State) :
  is_cleanup_reply ev = false ->
  let out := DeployFlow.step dir ev st in
  (DeployPage.cleaningUp st = true ->
   DeployPage.cleaningUp out.1 = true /\ List.filter is_cleanup_fetch out.2 = [])
  /\ (DeployPage.cleaningUp st = false ->
      (DeployPage.cleaningUp out.1 = false /\ List.filter is_cleanup_fetch out.2 = [])
      \/ (DeployPage.cleaningUp out.1 = true
          /\ length (List.filter is_cleanup_fetch out.2) = 1)).
Proof.
  intros Hev. destruct ev as [o|o|o|c]; simpl; [| |done|].
  - destruct o as [m|[] status d]; simpl; split; intros H; auto.
  - destruct o as [m|[] status d]; simpl; split; intros H; auto.
  - unfold DeployPage.click.
    destruct (DeployPage.render st) as [| |d]; simpl; [split; auto..|].
    destruct c as [| |b].
    + destruct (DeployPage.deploy_disabled st); simpl; [split; auto|].
      destruct (handleDeploy_effects dir st) as [->|(_ & -> & ->)];
        [simpl; split; auto|].
      cbn [List.filter]. rewrite (proj2 (deploy_request_kind dir _)).
      split; auto.
    + unfold DeployPage.cleanup_disabled.
      destruct (DeployPage.cleaningUp st) eqn:Hc; simpl; [split; [auto|done]|].
      split; [done|intros _].
      destruct (match DeployPage.local_branches_of (DeployPage.data st) with
                | Some l => length l <=? 1 | None => true end); simpl; [left; auto|].
      destruct (handleCleanupBranches_effects dir st) as [->|(H1 & _ & r & -> & Hr)];
        [left; auto|].
      right. split; [done|]. cbn [List.filter].
      by rewrite (proj1 (cleanup_request_kind dir r Hr)).
    + destruct (Js.includes _ _); simpl; split; auto.
Qed.

Lemma run_deploy_in_flight (dir : string) (evs : list DeployFlow.Event)
    (st : DeployPage.State) :
  forallb (fun ev => negb (is_deploy_reply ev)) evs = true ->
  length (List.filter is_deploy_fetch (DeployFlow.run dir evs st).2)
  <= (if DeployPage.deploying st then 0 else 1).
Proof.
  revert st. induction evs as [|ev evs IH]; intros st Hevs; simpl.
  - destruct (DeployPage.deploying st); simpl; lia.
  - simpl in Hevs. apply andb_true_iff in Hevs as [Hev%negb_true_iff Hevs].
    pose proof (step_deploy_in_flight dir ev st Hev) as [Hbusy Hidle].
    destruct (DeployFlow.step dir ev st) as [st1 effs1]. simpl in *.
    specialize (IH st1 Hevs).
    destruct (DeployFlow.run dir evs st1) as [st2 effs2]. simpl in *.
    rewrite List.filter_app, length_app.
    destruct (DeployPage.deploying st).
    + destruct (Hbusy eq_refl) as [H1 ->]. rewrite H1 in IH. simpl. lia.
    + destruct (Hidle eq_refl) as [[H1 ->]|[H1 H2]]; rewrite H1 in IH; simpl; lia.
Qed.

Lemma run_cleanup_in_flight (dir : string) (evs : list DeployFlow.Event)
    (st : DeployPage.State) :
  forallb (fun ev => negb (is_cleanup_reply ev)) evs = true ->
  length (List.filter is_cleanup_fetch (DeployFlow.run dir evs st).2)
  <= (if DeployPage.cleaningUp st then 0 else 1).
Proof.
  revert st. induction evs as [|ev evs IH]; intros st Hevs; simpl.
  - destruct (DeployPage.cleaningUp st); simpl; lia.
  - simpl in Hevs. apply andb_true_iff in Hevs as [Hev%negb_true_iff Hevs].
    pose proof (step_cleanup_in_flight dir ev st Hev) as [Hbusy Hidle].
    destruct (DeployFlow.step dir ev st) as [st1 effs1]. simpl in *.
    specialize (IH st1 Hevs).
    destruct (DeployFlow.run dir evs st1) as [st2 effs2]. simpl in *.
    rewrite List.filter_app, length_app.
    destruct (DeployPage.cleaningUp st).
    + destruct (Hbusy eq_refl) as [H1 ->]. rewrite H1 in IH. simpl. lia.
    + destruct (Hidle eq_refl) as [[H1 ->]|[H1 H2]]; rewrite H1 in IH; simpl; lia.
Qed.

(** X4. The page never has two deploy requests in flight, nor two cleanup
    requests: in any sequence of clicks and replies that holds no reply to
    a deploy request, at most one deploy request is sent, and none when a
    deploy was already running; the same holds for cleanup requests and
    their replies. *)
Theorem one_request_in_flight
    (dir : string) (evs : list DeployFlow.Event) (st : DeployPage.State) :
  (forallb (fun ev => negb (is_deploy_reply ev)) evs = true ->
   length (List.filter is_deploy_fetch (DeployFlow.run dir evs st).2)
   <= (if DeployPage.deploying st then 0 else 1))
  /\ (forallb (fun ev => negb (is_cleanup_reply ev)) evs = true ->
      length (List.filter is_cleanup_fetch (DeployFlow.run dir evs st).2)
      <= (if DeployPage.cleaningUp st then 0 else 1)).
Proof. split; [apply run_deploy_in_flight | apply run_cleanup_in_flight]. Qed.

(** Two clicks on Deploy send one request; after the reply, a third click
    sends the next one. *)
Example double_click_on_deploy :
  length (DeployFlow.run "teamA"
            [DeployFlow.Clicked DeployPage.DeployButton;
             DeployFlow.Clicked DeployPage.DeployButton] teamA_page).2 = 1
  /\ length (DeployFlow.run "teamA"
               [DeployFlow.Clicked DeployPage.DeployButton;
                DeployFlow.DeployReplied
                  (Http.Response true 200
                     {| DeployPage.reply_success := None; DeployPage.reply_error := None |});
                DeployFlow.Clicked DeployPage.DeployButton] teamA_page).2 = 2.
Proof. split; reflexivity. Qed.

(** ** The deploy page: the branch that is deployed *)

Lemma initialBranch_offered (f : DeployForm) :
  DeployPage.initialBranch f = "" \/ DeployPage.initialBranch f ∈ branches f.
Proof.
  unfold DeployPage.initialBranch.
  destruct (Js.includes (branches f) (selected f)) eqn:Hi.
  - right. by apply includes_true_iff.
  - destruct (branches f) as [|b rest]; simpl; [by left|right; by left].
Qed.

Lemma render_main_data (st : DeployPage.State) (d : DeployPageData) :
  DeployPage.render st = DeployPage.MainScreen d -> DeployPage.data st = Some d.
Proof.
  unfold DeployPage.render. destruct (DeployPage.loading st); [done|].
  destruct (DeployPage.data st) as [d'|]; [|done].
  destruct (Js.truthy_opt _); [done|]. by intros [= ->].
Qed.

Lemma step_offered (dir : string) (ev : DeployFlow.Event) (st : DeployPage.State) :
  offered st -> offered (DeployFlow.step dir ev st).1.
Proof.
  unfold offered. intros Hst. destruct ev as [o|o|o|c]; simpl.
  - destruct o as [m|[] status d]; simpl; [exact Hst| |exact Hst].
    apply initialBranch_offered.
  - destruct o as [m|[] status d]; exact Hst.
  - destruct o as [m|[] status d]; exact Hst.
  - unfold DeployPage.click.
    destruct (DeployPage.render st) as [| |d] eqn:Hr; simpl; [exact Hst..|].
    apply render_main_data in Hr.
    destruct c as [| |b].
    + destruct (DeployPage.deploy_disabled st); [exact Hst|].
      unfold DeployPage.handleDeploy. destruct (_ || _); exact Hst.
    + destruct (DeployPage.cleanup_disabled st); [exact Hst|].
      unfold DeployPage.handleCleanupBranches. destruct (negb _); exact Hst.
    + destruct (Js.includes (branches (form d)) b) eqn:Hb; [|exact Hst].
      simpl. rewrite Hr. right. by apply includes_true_iff.
Qed.

Lemma run_offered (dir : string) (evs : list DeployFlow.Event) (st : DeployPage.State) :
  offered st -> offered (DeployFlow.run dir evs st).1.
Proof.
  revert st. induction evs as [|ev evs IH]; intros st Hst; simpl; [done|].
  pose proof (step_offered dir ev st Hst) as H1.
  destruct (DeployFlow.step dir ev st) as [st1 effs1]. simpl in *.
  specialize (IH st1 H1).
  by destruct (DeployFlow.run dir evs st1) as [st2 effs2].
Qed.

(** X5. Whatever replies arrive and whatever the user does after the page
    is mounted, the selected branch is empty or one of the branches of the
    form the page currently holds; so the branch of every deploy request is
    one that the status endpoint offered for this page. *)
Theorem deployed_branch_was_offered (dir : string) (evs : list DeployFlow.Event) :
  let st := (DeployFlow.run dir evs (DeployFlow.mount dir).1).1 in
  offered st
  /\ forall c r,
       DeployPage.Fetch r ∈ (DeployPage.click dir c st).2 ->
       is_deploy_fetch (DeployPage.Fetch r) = true ->
       exists d b,
         DeployPage.data st = Some d
         /\ b ∈ branches (form d)
         /\ r = deploy_request dir b.
Proof.
  intros st.
  assert (offered st) as Hst.
  { apply run_offered. unfold DeployFlow.mount, DeployPage.fetchDeployData, offered.
    by destruct (negb _). }
  split; [exact Hst|]. intros c r Hin Hkind.
  unfold DeployPage.click in Hin.
  destruct (DeployPage.render st) as [| |d] eqn:Hr; simpl in Hin; [inversion Hin..|].
  apply render_main_data in Hr.
  destruct c as [| |b].
  - destruct (DeployPage.deploy_disabled st) eqn:Hdis; [inversion Hin|].
    destruct (handleDeploy_effects dir st) as [Hn|(_ & _ & Hs)];
      [rewrite Hn in Hin; inversion Hin|].
    rewrite Hs in Hin. apply list_elem_of_singleton in Hin. injection Hin as ->.
    exists d, (DeployPage.selectedBranch st). split; [done|]. split; [|done].
    unfold offered in Hst. rewrite Hr in Hst. destruct Hst as [He|Hin]; [|done].
    unfold DeployPage.deploy_disabled in Hdis. rewrite He in Hdis. discriminate.
  - destruct (DeployPage.cleanup_disabled st); [inversion Hin|].
    destruct (handleCleanupBranches_effects dir st) as [Hn|(_ & _ & r' & Hs & Hu)];
      [rewrite Hn in Hin; inversion Hin|].
    rewrite Hs in Hin. apply list_elem_of_singleton in Hin. injection Hin as ->.
    rewrite (proj2 (cleanup_request_kind dir r' Hu)) in Hkind. discriminate.
  - destruct (Js.includes _ _); inversion Hin.
Qed.

(** ** The deploy page: feedback after a deploy and after a cleanup *)

(** X6. After the reply to a deploy request the Deploy button is free
    again and the page shows exactly one deploy box: the success box, with
    a non-empty text, exactly when the reply is ok, otherwise the error box
    with exactly one entry (an array of error strings is joined without a
    separator).  The entry is empty only for a thrown [Error] with an empty
    message or for an array whose strings are all empty.  Starting the next
    deploy removes the box. *)
Theorem deploy_reply_shows_one_box
    (o : Http.Outcome DeployPage.DeployReply) (st : DeployPage.State) :
  let st' := DeployPage.on_deploy o st in
  DeployPage.deploying st' = false
  /\ ((exists status r text,
         o = Http.Response true status r
         /\ DeployFlow.deploy_boxes st' = [DeployFlow.DeploySuccess text]
         /\ text <> "")
      \/ (exists entry,
            (forall status r, o <> Http.Response true status r)
            /\ DeployFlow.deploy_boxes st' = [DeployFlow.DeployErrors [entry]]
            /\ (entry = "" ->
                o = Http.Threw (Some "")
                \/ exists status r l,
                     o = Http.Response false status r
                     /\ DeployPage.reply_error r = Some (DeployPage.ErrArray l)
                     /\ Forall (fun e => e = "") l)))
  /\ (forall dir, (DeployPage.handleDeploy dir st').2 <> [] ->
                  DeployFlow.deploy_boxes (DeployPage.handleDeploy dir st').1 = []).
Proof.
  intros st'. split; [by destruct o as [m|[] status r]|]. split.
  - destruct o as [m|[] status r]; subst st'.
    + right. eexists. split; [done|]. split; [reflexivity|].
      destruct m as [m|]; simpl; [|done]. intros ->. by left.
    + left. exists status, r.
      exists (Js.or_else (DeployPage.reply_success r) "Deployment successful!").
      split; [done|].
      unfold DeployFlow.deploy_boxes. simpl.
      destruct (DeployPage.reply_success r) as [[|a t]|]; simpl; split; done.
    + right. unfold DeployFlow.deploy_boxes, DeployPage.deploy_errors. simpl.
      destruct (DeployPage.reply_error r) as [[e|l]|] eqn:He; simpl.
      * eexists. split; [done|]. split; [reflexivity|].
        destruct e; simpl; done.
      * eexists. split; [done|]. split; [reflexivity|].
        intros Hl. right. exists status, r, l. split; [done|]. split; [done|].
        clear He. induction l as [|e l IH]; [constructor|].
        simpl in Hl. destruct e as [|a e]; [|discriminate].
        constructor; [done|]. apply IH. exact Hl.
      * eexists. split; [done|]. split; [reflexivity|done].
  - intros dir. unfold DeployPage.handleDeploy.
    destruct (_ || _); [intros H; by destruct H | reflexivity].
Qed.

Lemma cleanup_boxes_shown_twice (st : DeployPage.State) (d : DeployPageData) :
  List.filter is_cleanup_box (DeployFlow.boxes st d)
  = DeployFlow.cleanup_boxes st ++ DeployFlow.cleanup_boxes st.
Proof.
  assert (List.filter is_cleanup_box (DeployFlow.cleanup_boxes st)
          = DeployFlow.cleanup_boxes st) as Hc.
  { unfold DeployFlow.cleanup_boxes.
    destruct (DeployPage.cleanupResponse st) as [r|]; [|done].
    destruct (_ && _), (Js.truthy_opt (DeployPage.cr_error r)); done. }
  assert (List.filter is_cleanup_box (DeployFlow.deploy_boxes st) = []) as Hd.
  { unfold DeployFlow.deploy_boxes.
    destruct (DeployPage.deployResponse st) as [r|]; [|done].
    destruct (Js.truthy_opt _), (DeployPage.dr_errors r); done. }
  unfold DeployFlow.boxes. rewrite !List.filter_app, Hc, Hd.
  destruct (DeployPage.fetch_error_block d); simpl; by rewrite app_nil_r.
Qed.

(** X7. After the reply to a cleanup request the Cleanup button is free
    again.  An ok reply shows the success text and schedules a page reload
    after two seconds; no other reply schedules one.  A reply that is not
    ok, or a thrown error, shows an error text; the only reply that leaves
    no cleanup box at all is a thrown [Error] with an empty message.  Each
    cleanup box stands twice on the page. *)
Theorem cleanup_reply_feedback
    (o : Http.Outcome DeployPage.CleanupReply) (st : DeployPage.State)
    (d : DeployPageData) :
  let st' := (DeployPage.on_cleanup o st).1 in
  DeployPage.cleaningUp st' = false
  /\ ((DeployPage.on_cleanup o st).2 = [DeployPage.ReloadAfter 2000]
        <-> exists status r, o = Http.Response true status r)
  /\ ((DeployPage.on_cleanup o st).2 = []
        <-> forall status r, o <> Http.Response true status r)
  /\ (forall status r, o = Http.Response true status r ->
        DeployFlow.cleanup_boxes st'
        = [DeployFlow.CleanupSuccess (DeployPage.cleanup_message r)])
  /\ ((forall status r, o <> Http.Response true status r) ->
        o <> Http.Threw (Some "") ->
        exists text, DeployFlow.cleanup_boxes st' = [DeployFlow.CleanupError text]
                     /\ text <> "")
  /\ (DeployFlow.cleanup_boxes st' = [] <-> o = Http.Threw (Some ""))
  /\ List.filter is_cleanup_box (DeployFlow.boxes st' d)
     = DeployFlow.cleanup_boxes st' ++ DeployFlow.cleanup_boxes st'.
Proof.
  intros st'. split; [by destruct o as [m|[] status r]|].
  split; [destruct o as [m|[] status r]; simpl; split;
          [done|by intros (? & ? & [=])|eauto|done|done|by intros (? & ? & [=])]|].
  split; [destruct o as [m|[] status r]; simpl; split; try done;
          intros H; by destruct (H status r)|].
  split; [by intros status r ->|].
  split; [|split; [|apply cleanup_boxes_shown_twice]].
  - intros Hfail Hsilent. subst st'.
    destruct o as [[[|a m]|]|[] status r]; unfold DeployFlow.cleanup_boxes; simpl.
    + done.
    + eexists. split; [reflexivity|done].
    + eexists. split; [reflexivity|done].
    + by destruct (Hfail status r).
    + destruct (DeployPage.cleanup_error r) as [[|a e]|]; simpl;
        eexists; (split; [reflexivity|done]).
  - subst st'.
    destruct o as [[[|a m]|]|[] status r]; unfold DeployFlow.cleanup_boxes; simpl;
      try (split; [discriminate|discriminate]); try done.
    destruct (DeployPage.cleanup_error r) as [[|a e]|]; simpl;
      split; discriminate.
Qed.

(** ** The deploy page: the remote fetch errors *)

Lemma trim_start_truthy (s : string) :
  Js.truthy (Js.trim_start s) = has_visible_char s.
Proof.
  induction s as [|c s IH]; simpl; [done|].
  destruct (Js.is_trim_space c); simpl; [exact IH|done].
Qed.

Lemma trim_start_visible (s : string) :
  has_visible_char (Js.trim_start s) = has_visible_char s.
Proof.
  induction s as [|c s IH]; simpl; [done|].
  destruct (Js.is_trim_space c) eqn:Hc; simpl; [exact IH|by rewrite Hc].
Qed.

Lemma rev_app_visible (s acc : string) :
  has_visible_char (String.rev_app s acc) = has_visible_char s || has_visible_char acc.
Proof.
  revert acc. induction s as [|c s IH]; intros acc; simpl; [done|].
  rewrite IH. simpl. destruct (Js.is_trim_space c), (has_visible_char s); done.
Qed.

Lemma rev_visible (s : string) :
  has_visible_char (String.rev s) = has_visible_char s.
Proof. unfold String.rev. rewrite rev_app_visible. simpl. apply orb_false_r. Qed.

Lemma rev_app_truthy (s acc : string) :
  Js.truthy (String.rev_app s acc) = Js.truthy s || Js.truthy acc.
Proof.
  revert acc. induction s as [|c s IH]; intros acc; simpl; [done|].
  rewrite IH. simpl. apply orb_true_r.
Qed.

Lemma rev_truthy (s : string) : Js.truthy (String.rev s) = Js.truthy s.
Proof. unfold String.rev. rewrite rev_app_truthy. simpl. apply orb_false_r. Qed.

(** [s.trim()] is non-empty exactly when [s] holds a character that is
    neither white space nor a line terminator. *)
Lemma trim_truthy_visible (s : string) :
  Js.truthy (Js.trim s) = has_visible_char s.
Proof.
  unfold Js.trim, Js.trim_end.
  by rewrite rev_truthy, trim_start_truthy, rev_visible, trim_start_visible.
Qed.

Lemma existsb_visible (errs : list string) :
  existsb (fun e => Js.truthy (Js.trim e)) errs = true <->
  exists e, e ∈ errs /\ has_visible_char e = true.
Proof.
  rewrite existsb_exists. split.
  - intros (e & Hin & He). exists e. rewrite <- trim_truthy_visible.
    split; [by apply list_elem_of_In|done].
  - intros (e & Hin & He). exists e. rewrite trim_truthy_visible.
    split; [by apply list_elem_of_In|done].
Qed.

(** X8. The "Remote fetch issues" box is on the page exactly when the
    status payload carries an error with a character other than white
    space; it then lists, in their order, all the errors that are not the
    empty string, the ones made of white space included.  Without an
    [errors] array, with an empty one, or with blank errors only, there is
    no box. *)
Theorem fetch_error_box_needs_a_visible_error (d : DeployPageData) :
  (is_Some (DeployPage.fetch_error_block d) <->
     exists errs e, errors d = Some errs /\ e ∈ errs /\ has_visible_char e = true)
  /\ (forall shown,
        DeployPage.fetch_error_block d = Some shown ->
        exists errs,
          errors d = Some errs
          /\ shown `sublist_of` errs
          /\ (forall e, e ∈ shown <-> e ∈ errs /\ e <> ""))
  /\ (errors d = None \/ errors d = Some [] -> DeployPage.fetch_error_block d = None).
Proof.
  unfold DeployPage.fetch_error_block.
  destruct (errors d) as [errs|]; [|split; [split|split]].
  - destruct (existsb _ errs) eqn:Hex.
    + apply existsb_visible in Hex as (e & Hin & He).
      split; [split; [intros _; eauto|eauto]|]. split.
      * intros shown [= <-]. exists errs. split; [done|]. split.
        { clear. induction errs as [|e errs IH]; simpl; [constructor|].
          destruct (Js.truthy e); by constructor. }
        intros e'. rewrite !list_elem_of_In, filter_In, truthy_true_iff. tauto.
      * intros [[=]|[= ->]]. inversion Hin.
    + split; [split|split].
      * by intros [? [=]].
      * intros (errs' & e & [= <-] & Hin & He).
        assert (existsb (fun e => Js.truthy (Js.trim e)) errs = true) as H
          by (apply existsb_visible; eauto).
        congruence.
      * intros shown [=].
      * done.
  - by intros [? [=]].
  - by intros (? & ? & [=] & _).
  - intros shown [=].
  - done.
Qed.

(** ** The "add repository" dialog: submitting *)

Lemma handleSubmit_refuses (st : AddRepoModal.State) :
  ~ submit_ready st ->
  exists text,
    text <> ""
    /\ AddRepoModal.handleSubmit st
       = (AddRepoModal.start_submit (Some text) (AddRepoModal.loading st) st, []).
Proof.
  unfold submit_ready, AddRepoModal.handleSubmit. intros Hnot.
  destruct (AddRepoModal.method st) eqn:Hm.
  - destruct (AddRepoModal.sshKeyFile st) as [key|] eqn:Hk;
      [|eexists; split; [|reflexivity]; done].
    destruct (Js.truthy (AddRepoModal.repoUrl st)) eqn:Hu,
             (Js.truthy (AddRepoModal.folderName st)) eqn:Hf; simpl;
      try (eexists; split; [|reflexivity]; done).
    apply truthy_true_iff in Hu, Hf. destruct Hnot. split; [done|]. left. eauto.
  - destruct (Js.truthy (AddRepoModal.selectedGithubRepo st)) eqn:Hu,
             (Js.truthy (AddRepoModal.folderName st)) eqn:Hf; simpl;
      try (eexists; split; [|reflexivity]; done).
    apply truthy_true_iff in Hu, Hf. destruct Hnot. split; [done|]. right. eauto.
Qed.

Lemma handleSubmit_sends (st : AddRepoModal.State) :
  submit_ready st ->
  exists r,
    AddRepoModal.handleSubmit st = (AddRepoModal.start_submit None true st, [r])
    /\ Http.method r = Http.POST
    /\ ((AddRepoModal.method st = AddRepoModal.ssh
         /\ Http.url r = AddRepoModal.add_ssh_url
         /\ exists key,
              AddRepoModal.sshKeyFile st = Some key
              /\ Http.body r
                 = Some [("repo_url", Http.FText (AddRepoModal.repoUrl st));
                         ("folder_name", Http.FText (AddRepoModal.folderName st));
                         ("ssh_key", Http.FFile key)])
        \/ (AddRepoModal.method st = AddRepoModal.github
            /\ Http.url r = AddRepoModal.add_github_url
            /\ Http.body r
               = Some [("repo_full_name", Http.FText (AddRepoModal.selectedGithubRepo st));
                       ("folder_name", Http.FText (AddRepoModal.folderName st))])).
Proof.
  unfold submit_ready, AddRepoModal.handleSubmit.
  intros [Hf%truthy_true_iff [(Hm & Hu%truthy_true_iff & [key Hk])|(Hm & Hu%truthy_true_iff)]];
    rewrite Hm, ?Hk, Hu, Hf; simpl.
  - eexists. split; [reflexivity|]. split; [reflexivity|]. left. eauto.
  - eexists. split; [reflexivity|]. split; [reflexivity|]. by right.
Qed.

Lemma submit_ready_dec (st : AddRepoModal.State) : submit_ready st \/ ~ submit_ready st.
Proof.
  unfold submit_ready.
  destruct (decide (AddRepoModal.folderName st = "")) as [Hf|Hf]; [right; tauto|].
  destruct (AddRepoModal.method st).
  - destruct (decide (AddRepoModal.repoUrl st = "")) as [Hu|Hu];
      [right; intros [_ [(_ & ? & _)|(? & _)]]; done|].
    destruct (AddRepoModal.sshKeyFile st) as [key|];
      [left; split; [done|]; left; eauto|].
    right. intros [_ [(_ & _ & [? ?])|(? & _)]]; done.
  - destruct (decide (AddRepoModal.selectedGithubRepo st = "")) as [Hu|Hu];
      [right; intros [_ [(? & _)|(_ & ?)]]; done|].
    left. split; [done|]. by right.
Qed.

(** X9. The dialog sends an add request exactly when the folder name and
    the other fields of the selected method are filled in: the URL and a
    key file for SSH, a selected repository for the GitHub App.  It then
    sends one POST, to the endpoint of the method, with the fields of that
    method only, and marks the dialog as loading; otherwise it sends
    nothing, leaves the loading mark as it was and sets a non-empty error
    text. *)
Theorem add_request_needs_all_fields (st : AddRepoModal.State) :
  let out := AddRepoModal.handleSubmit st in
  (out.2 <> [] <->
     AddRepoModal.folderName st <> ""
     /\ ((AddRepoModal.method st = AddRepoModal.ssh
          /\ AddRepoModal.repoUrl st <> ""
          /\ is_Some (AddRepoModal.sshKeyFile st))
         \/ (AddRepoModal.method st = AddRepoModal.github
             /\ AddRepoModal.selectedGithubRepo st <> "")))
  /\ (out.2 = [] ->
      AddRepoModal.loading out.1 = AddRepoModal.loading st
      /\ exists text, AddRepoModal.error out.1 = Some text /\ text <> "")
  /\ (forall r, r ∈ out.2 ->
        out.2 = [r]
        /\ Http.method r = Http.POST
        /\ AddRepoModal.loading out.1 = true
        /\ AddRepoModal.error out.1 = None
        /\ ((AddRepoModal.method st = AddRepoModal.ssh
             /\ Http.url r = AddRepoModal.add_ssh_url
             /\ exists key,
                  AddRepoModal.sshKeyFile st = Some key
                  /\ Http.body r
                     = Some [("repo_url", Http.FText (AddRepoModal.repoUrl st));
                             ("folder_name", Http.FText (AddRepoModal.folderName st));
                             ("ssh_key", Http.FFile key)])
            \/ (AddRepoModal.method st = AddRepoModal.github
                /\ Http.url r = AddRepoModal.add_github_url
                /\ Http.body r
                   = Some [("repo_full_name", Http.FText (AddRepoModal.selectedGithubRepo st));
                           ("folder_name", Http.FText (AddRepoModal.folderName st))]))).
Proof.
  intros out. subst out.
  destruct (submit_ready_dec st) as [Hready|Hnot].
  - destruct (handleSubmit_sends st Hready) as (r & Heq & Hpost & Hshape).
    rewrite Heq. simpl. split; [split; [done|by intros _]|].
    split; [done|].
    intros r' ->%list_elem_of_singleton. done.
  - destruct (handleSubmit_refuses st Hnot) as (text & Htext & Heq).
    rewrite Heq. simpl. split; [split; [done|by intros ?]|].
    split; [intros _; eauto|].
    intros r Hr. inversion Hr.
Qed.

Lemma fetchGithubRepos_keeps_form (isOpen : bool) (st : AddRepoModal.State) :
  let out := AddRepoModal.fetchGithubRepos isOpen st in
  AddRepoModal.loading out.1 = AddRepoModal.loading st
  /\ AddRepoModal.folderName out.1 = AddRepoModal.folderName st
  /\ AddRepoModal.repoUrl out.1 = AddRepoModal.repoUrl st
  /\ AddRepoModal.sshKeyFile out.1 = AddRepoModal.sshKeyFile st
  /\ List.filter is_add_request out.2 = [].
Proof.
  unfold AddRepoModal.fetchGithubRepos.
  destruct (_ && _); [done|]. by destruct (bool_decide _).
Qed.

Lemma rerun_effect_keeps_form (isOpen : bool) (before after : AddRepoModal.State) :
  let out := AddRepoModal.rerun_effect isOpen before after in
  AddRepoModal.loading out.1 = AddRepoModal.loading after
  /\ AddRepoModal.folderName out.1 = AddRepoModal.folderName after
  /\ AddRepoModal.repoUrl out.1 = AddRepoModal.repoUrl after
  /\ AddRepoModal.sshKeyFile out.1 = AddRepoModal.sshKeyFile after
  /\ List.filter is_add_request out.2 = [].
Proof.
  unfold AddRepoModal.rerun_effect.
  destruct (_ && _); [done|apply fetchGithubRepos_keeps_form].
Qed.

Lemma handleSubmit_add_requests (st : AddRepoModal.State) :
  (AddRepoModal.handleSubmit st).2 = []
  \/ (AddRepoModal.loading (AddRepoModal.handleSubmit st).1 = true
      /\ length (List.filter is_add_request (AddRepoModal.handleSubmit st).2) = 1).
Proof.
  destruct (submit_ready_dec st) as [Hready|Hnot].
  - destruct (handleSubmit_sends st Hready) as (r & -> & _ & Hshape).
    right. split; [done|]. simpl. unfold is_add_request.
    by destruct Hshape as [(_ & -> & _)|(_ & -> & _)].
  - destruct (handleSubmit_refuses st Hnot) as (text & _ & ->). by left.
Qed.

Lemma step_while_loading (isOpen : bool) (ev : AddRepoModal.Event)
    (st : AddRepoModal.State) :
  ends_submission ev = false ->
  AddRepoModal.loading st = true ->
  let out := AddRepoModal.step isOpen ev st in
  AddRepoModal.loading out.1 = true
  /\ AddRepoModal.folderName out.1 = AddRepoModal.folderName st
  /\ AddRepoModal.repoUrl out.1 = AddRepoModal.repoUrl st
  /\ AddRepoModal.sshKeyFile out.1 = AddRepoModal.sshKeyFile st
  /\ List.filter is_add_request out.2 = [].
Proof.
  intros Hev Hl.
  destruct ev as [o|o|o| | | | |v|v|v|v]; try discriminate; unfold AddRepoModal.step.
  - destruct (rerun_effect_keeps_form isOpen st (AddRepoModal.on_github_available o st))
      as (-> & -> & -> & -> & ->).
    by destruct o as [m|ok status d].
  - by destruct o as [m|[] status d].
  - destruct isOpen; [|done].
    by destruct (rerun_effect_keeps_form true st (AddRepoModal.setMethod AddRepoModal.ssh st))
      as (-> & -> & -> & -> & ->).
  - destruct (_ && _); [|done].
    by destruct (rerun_effect_keeps_form isOpen st (AddRepoModal.setMethod AddRepoModal.github st))
      as (-> & -> & -> & -> & ->).
  - rewrite Hl. by rewrite andb_false_r.
  - rewrite Hl. by rewrite andb_false_r.
  - rewrite Hl. by rewrite andb_false_r.
  - rewrite Hl. by rewrite andb_false_r.
  - rewrite Hl. by rewrite andb_false_r.
Qed.

Lemma step_add_requests (isOpen : bool) (ev : AddRepoModal.Event)
    (st : AddRepoModal.State) :
  ends_submission ev = false ->
  AddRepoModal.loading st = false ->
  let out := AddRepoModal.step isOpen ev st in
  (AddRepoModal.loading out.1 = false /\ List.filter is_add_request out.2 = [])
  \/ (AddRepoModal.loading out.1 = true
      /\ length (List.filter is_add_request out.2) = 1).
Proof.
  intros Hev Hl.
  destruct ev as [o|o|o| | | | |v|v|v|v]; try discriminate; unfold AddRepoModal.step.
  - left.
    destruct (rerun_effect_keeps_form isOpen st (AddRepoModal.on_github_available o st))
      as (-> & _ & _ & _ & ->).
    by destruct o as [m|ok status d].
  - left. by destruct o as [m|[] status d].
  - left. destruct isOpen; [|done].
    by destruct (rerun_effect_keeps_form true st (AddRepoModal.setMethod AddRepoModal.ssh st))
      as (-> & _ & _ & _ & ->).
  - left. destruct (_ && _); [|done].
    by destruct (rerun_effect_keeps_form isOpen st (AddRepoModal.setMethod AddRepoModal.github st))
      as (-> & _ & _ & _ & ->).
  - destruct (_ && _); [|by left].
    destruct (handleSubmit_add_requests st) as [Hn|H]; [|by right].
    left. rewrite Hn. split; [|done].
    destruct (submit_ready_dec st) as [Hready|Hnot].
    + destruct (handleSubmit_sends st Hready) as (r & Heq & _). by rewrite Heq in Hn.
    + destruct (handleSubmit_refuses st Hnot) as (text & _ & ->). done.
  - left. by destruct (_ && _).
  - left. by destruct (_ && _).
  - left. by destruct (_ && _).
  - left. destruct (_ && _); [|done]. unfold AddRepoModal.handleGithubRepoSelect.
    by destruct (negb _).
Qed.

Lemma run_while_loading (isOpen : bool) (evs : list AddRepoModal.Event)
    (st : AddRepoModal.State) :
  forallb (fun ev => negb (ends_submission ev)) evs = true ->
  AddRepoModal.loading st = true ->
  let out := AddRepoModal.run isOpen evs st in
  AddRepoModal.loading out.1 = true
  /\ AddRepoModal.folderName out.1 = AddRepoModal.folderName st
  /\ AddRepoModal.repoUrl out.1 = AddRepoModal.repoUrl st
  /\ AddRepoModal.sshKeyFile out.1 = AddRepoModal.sshKeyFile st
  /\ List.filter is_add_request out.2 = [].
Proof.
  revert st. induction evs as [|ev evs IH]; intros st Hevs Hl; simpl; [done|].
  simpl in Hevs. apply andb_true_iff in Hevs as [Hev%negb_true_iff Hevs].
  pose proof (step_while_loading isOpen ev st Hev Hl) as (H1 & H2 & H3 & H4 & H5).
  destruct (AddRepoModal.step isOpen ev st) as [st1 reqs1]. simpl in *.
  pose proof (IH st1 Hevs H1) as (G1 & G2 & G3 & G4 & G5).
  destruct (AddRepoModal.run isOpen evs st1) as [st2 reqs2]. simpl in *.
  rewrite List.filter_app, H5, G5. repeat split; congruence.
Qed.

(** X10. While a submission is in flight (the dialog is loading) and until
    its reply arrives or the dialog is closed, no further add request is
    sent and the folder name, the URL and the key file keep their values,
    whatever else happens (typing, tab clicks, submitting again, replies to
    the other requests).  From a dialog that is not loading at most one add
    request is sent before a reply or a close. *)
Theorem one_submission_in_flight
    (isOpen : bool) (evs : list AddRepoModal.Event) (st : AddRepoModal.State) :
  forallb (fun ev => negb (ends_submission ev)) evs = true ->
  let out := AddRepoModal.run isOpen evs st in
  length (List.filter is_add_request out.2)
    <= (if AddRepoModal.loading st then 0 else 1)
  /\ (AddRepoModal.loading st = true ->
      AddRepoModal.loading out.1 = true
      /\ AddRepoModal.folderName out.1 = AddRepoModal.folderName st
      /\ AddRepoModal.repoUrl out.1 = AddRepoModal.repoUrl st
      /\ AddRepoModal.sshKeyFile out.1 = AddRepoModal.sshKeyFile st).
Proof.
  intros Hevs out. subst out. split.
  - revert st. induction evs as [|ev evs IH]; intros st; simpl.
    + destruct (AddRepoModal.loading st); simpl; lia.
    + simpl in Hevs. apply andb_true_iff in Hevs as [Hev%negb_true_iff Hevs].
      destruct (AddRepoModal.loading st) eqn:Hl.
      * pose proof (run_while_loading isOpen (ev :: evs) st) as H. simpl in H.
        rewrite Hev, Hevs in H. destruct (H eq_refl Hl) as (_ & _ & _ & _ & ->).
        simpl. lia.
      * pose proof (step_add_requests isOpen ev st Hev Hl) as Hstep.
        specialize (IH Hevs).
        destruct (AddRepoModal.step isOpen ev st) as [st1 reqs1]. simpl in *.
        specialize (IH st1).
        destruct (AddRepoModal.run isOpen evs st1) as [st2 reqs2]. simpl in *.
        rewrite List.filter_app, length_app.
        destruct Hstep as [[H1 ->]|[H1 H2]]; rewrite H1 in IH; simpl; lia.
  - intros Hl.
    by destruct (run_while_loading isOpen evs st Hevs Hl) as (H1 & H2 & H3 & H4 & _).
Qed.

Lemma one_submission_in_flight_witness :
  let key := {| Http.file_name := "id_ed25519"; Http.file_content := "KEY" |} in
  let evs :=
    [AddRepoModal.InputRepoUrl "git@host:teamB.git";
     AddRepoModal.InputFolderName "teamB";
     AddRepoModal.InputKeyFile (Some key);
     AddRepoModal.SubmitForm;
     AddRepoModal.InputFolderName "other";
     AddRepoModal.SubmitForm] in
  forallb (fun ev => negb (ends_submission ev)) evs = true
  /\ length (List.filter is_add_request
               (AddRepoModal.run true evs AddRepoModal.initial).2) <= 1.
Proof.
  intros key evs. split; [reflexivity|].
  exact (proj1 (one_submission_in_flight true evs AddRepoModal.initial eq_refl)).
Defined.

(** X11. After a submission was sent, its reply ends the loading state and
    leaves the fields of the form as they were.  An ok reply sets a
    non-empty success text and no error; any other outcome sets an error
    text and no success text, and that text is empty only for a thrown
    [Error] with an empty message. *)
Theorem submission_reply_feedback
    (st : AddRepoModal.State) (o : Http.Outcome AddRepoModal.AddReply) :
  submit_ready st ->
  let st' := AddRepoModal.on_submit o (AddRepoModal.handleSubmit st).1 in
  AddRepoModal.loading st' = false
  /\ AddRepoModal.folderName st' = AddRepoModal.folderName st
  /\ AddRepoModal.repoUrl st' = AddRepoModal.repoUrl st
  /\ AddRepoModal.sshKeyFile st' = AddRepoModal.sshKeyFile st
  /\ AddRepoModal.selectedGithubRepo st' = AddRepoModal.selectedGithubRepo st
  /\ AddRepoModal.method st' = AddRepoModal.method st
  /\ ((exists status d text,
         o = Http.Response true status d
         /\ AddRepoModal.error st' = None
         /\ AddRepoModal.success st' = Some text /\ text <> "")
      \/ (exists text,
            (forall status d, o <> Http.Response true status d)
            /\ AddRepoModal.success st' = None
            /\ AddRepoModal.error st' = Some text
            /\ (text = "" -> o = Http.Threw (Some "")))).
Proof.
  intros Hready st'. subst st'.
  destruct (handleSubmit_sends st Hready) as (r & -> & _). simpl.
  destruct o as [m|[] status d]; simpl; repeat (split; [reflexivity|]).
  - right. eexists. split; [done|]. split; [done|]. split; [done|].
    destruct m as [m|]; simpl; [by intros ->|done].
  - left. exists status, d. eexists. split; [done|]. split; [done|].
    split; [done|]. by apply or_else_truthy.
  - right. eexists. split; [done|]. split; [done|]. split; [done|].
    intros H. by apply or_else_truthy in H.
Qed.

Lemma submission_reply_feedback_witness :
  let key := {| Http.file_name := "id_ed25519"; Http.file_content := "KEY" |} in
  let st :=
    (AddRepoModal.run true
       [AddRepoModal.InputRepoUrl "git@host:teamB.git";
        AddRepoModal.InputFolderName "teamB";
        AddRepoModal.InputKeyFile (Some key)] AddRepoModal.initial).1 in
  submit_ready st
  /\ AddRepoModal.loading
       (AddRepoModal.on_submit
          (Http.Response false 400
             {| AddRepoModal.add_success := None;
                AddRepoModal.add_error := Some "Folder already exists" |})
          (AddRepoModal.handleSubmit st).1) = false.
Proof.
  intros key st.
  assert (submit_ready st) as Hready.
  { split; [discriminate|]. left. split; [reflexivity|]. split; [discriminate|].
    eexists. reflexivity. }
  split; [exact Hready|].
  exact (proj1 (submission_reply_feedback st
                  (Http.Response false 400
                     {| AddRepoModal.add_success := None;
                        AddRepoModal.add_error := Some "Folder already exists" |})
                  Hready)).
Defined.

(** ** The "add repository" dialog: picking a GitHub repository *)

Lemma split_on_no_slash (s : string) :
  has_slash s = false -> Js.split_on (Ascii.eqb "/") s = [s].
Proof.
  induction s as [|c s IH]; cbn [Js.split_on has_slash]; [done|].
  destruct (Ascii.eqb "/" c); cbn [orb]; [discriminate|].
  intros H. by rewrite (IH H).
Qed.

Lemma split_on_first_slash (owner rest : string) :
  has_slash owner = false ->
  Js.split_on (Ascii.eqb "/") (owner +:+ String "/" rest)
  = owner :: Js.split_on (Ascii.eqb "/") rest.
Proof.
  induction owner as [|c owner IH]; cbn [has_slash].
  - intros _. rewrite append_empty_l. cbn [Js.split_on].
    by rewrite (proj2 (Ascii.eqb_eq "/" "/") eq_refl).
  - rewrite append_cons. cbn [Js.split_on].
    destruct (Ascii.eqb "/" c); cbn [orb]; [discriminate|].
    intros H. by rewrite (IH H).
Qed.

Lemma split_on_pieces_no_slash (s piece : string) :
  piece ∈ Js.split_on (Ascii.eqb "/") s -> has_slash piece = false.
Proof.
  revert piece. induction s as [|c s IH]; intros piece; cbn [Js.split_on].
  - by intros ->%list_elem_of_singleton.
  - destruct (Ascii.eqb "/" c) eqn:Hc.
    + intros [->|H]%elem_of_cons; [done|by apply IH].
    + destruct (Js.split_on (Ascii.eqb "/") s) as [|p ps].
      * intros ->%list_elem_of_singleton. cbn [has_slash]. by rewrite Hc.
      * intros [->|H]%elem_of_cons.
        -- cbn [has_slash]. rewrite Hc. apply IH. by left.
        -- apply IH. by right.
Qed.

(** X12. Picking a repository in the GitHub list stores its full name and
    fills in the folder name only while that is still empty: a folder name
    already typed is kept.  The name filled in is the part of the full name
    between its first and second [/], so it never holds a [/]; for
    [owner/repo] it is [repo], and for a full name without [/] (the
    placeholder option) the folder name stays empty. *)
Theorem github_repo_select_fills_folder_name
    (fullName : string) (st : AddRepoModal.State) :
  let st' := AddRepoModal.handleGithubRepoSelect fullName st in
  AddRepoModal.selectedGithubRepo st' = fullName
  /\ (AddRepoModal.folderName st <> "" ->
      AddRepoModal.folderName st' = AddRepoModal.folderName st)
  /\ (AddRepoModal.folderName st = "" ->
      has_slash (AddRepoModal.folderName st') = false
      /\ (has_slash fullName = false -> AddRepoModal.folderName st' = "")
      /\ (forall owner repo,
            fullName = owner +:+ "/" +:+ repo ->
            has_slash owner = false -> has_slash repo = false ->
            AddRepoModal.folderName st' = repo)
      /\ (forall owner repo more,
            fullName = owner +:+ "/" +:+ repo +:+ "/" +:+ more ->
            has_slash owner = false -> has_slash repo = false ->
            AddRepoModal.folderName st' = repo)).
Proof.
  intros st'. subst st'. unfold AddRepoModal.handleGithubRepoSelect.
  split; [by destruct (negb _)|]. split.
  - intros H%truthy_true_iff. by rewrite H.
  - intros H. rewrite H. simpl. split; [|split; [|split]].
    + destruct (Js.split_on (Ascii.eqb "/") fullName !! 1) as [piece|] eqn:Hp; [|done].
      simpl. apply (split_on_pieces_no_slash fullName).
      apply list_elem_of_lookup. eauto.
    + intros Hn. by rewrite (split_on_no_slash _ Hn).
    + intros owner repo -> Ho Hr.
      change (owner +:+ "/" +:+ repo) with (owner +:+ String "/" repo).
      by rewrite (split_on_first_slash _ _ Ho), (split_on_no_slash _ Hr).
    + intros owner repo more -> Ho Hr.
      change (owner +:+ "/" +:+ repo +:+ "/" +:+ more)
        with (owner +:+ String "/" (repo +:+ String "/" more)).
      by rewrite (split_on_first_slash _ _ Ho), (split_on_first_slash _ _ Hr).
Qed.

(** ** The repository list *)




(** X14. The hash cell of the list shows a prefix of the SHA: its first
    eight characters, or all of it when it is shorter.  Without a SHA, or
    with an empty one, the cell shows [-]. *)
Theorem short_hash_is_a_prefix (r : Repository) :
  (forall s, sha r = Some s -> s <> "" ->
     exists shown rest,
       RepoList.hash_cell r = Ok (Code shown)
       /\ s = shown +:+ rest
       /\ String.length shown = Nat.min 8 (String.length s))
  /\ (sha r = None \/ sha r = Some "" -> RepoList.hash_cell r = Ok (Text "-")).
Proof.
  split.
  - intros s Hs Hne. rewrite hash_cell_ok, Hs.
    destruct s as [|c h]; [done|].
    exists (String.substring 0 8 (String c h)).
    assert (forall n t, exists rest,
              t = String.substring 0 n t +:+ rest
              /\ String.length (String.substring 0 n t) = Nat.min n (String.length t))
      as Hsub.
    { clear. induction n as [|n IH]; intros t.
      - exists t. by destruct t.
      - destruct t as [|a t]; [by exists ""|].
        destruct (IH t) as (rest & Heq & Hlen). exists rest. simpl.
        rewrite append_cons, <- Heq, Hlen. done. }
    destruct (Hsub 8 (String c h)) as (rest & Heq & Hlen).
    exists rest. done.
  - intros [H|H]; by rewrite hash_cell_ok, H.
Qed.

(** ** The router: which occurrence of the pattern counts *)

Lemma string_length_append (a b : string) :
  String.length (a +:+ b) = String.length a + String.length b.
Proof. induction a as [|c a IH]; [done|]. rewrite append_cons. simpl. by rewrite IH. Qed.

Lemma append_assoc_status (a b : string) :
  (a +:+ "#/status/") +:+ b = a +:+ "#/status/" +:+ b.
Proof. induction a as [|x a IH]; [done|]. by rewrite !append_cons, IH. Qed.

Lemma append_eq_suffix (a b c d : string) :
  a +:+ b = c +:+ d -> String.length c <= String.length a ->
  exists e, d = e +:+ b.
Proof.
  revert a. induction c as [|x c IH]; intros a Heq Hlen.
  - exists a. by rewrite append_empty_l in Heq.
  - destruct a as [|y a]; [simpl in Hlen; lia|].
    rewrite !append_cons in Heq. injection Heq as _ Heq.
    apply (IH a Heq). simpl in Hlen. lia.
Qed.

(** X15. When the hash holds several occurrences of [#/status/] that could
    start a folder name, the leftmost one counts: for every way to read the
    hash as some text, [#/status/] and a non-empty name without line
    terminators, the folder name of the Deploy page ends with that name.
    The folder name is therefore the longest candidate, and it is the name
    itself when nothing stands before [#/status/]. *)
Theorem folder_is_the_longest_candidate (before name : string) :
  name <> "" -> Js.all_dot name = true ->
  (exists extra,
     DeployPage.folder_of_hash (before +:+ "#/status/" +:+ name) = extra +:+ name)
  /\ String.length name
     <= String.length (DeployPage.folder_of_hash (before +:+ "#/status/" +:+ name))
  /\ DeployPage.folder_of_hash ("#/status/" +:+ name) = name.
Proof.
  intros Hne Hall.
  assert (exists extra,
            DeployPage.folder_of_hash (before +:+ "#/status/" +:+ name) = extra +:+ name)
    as [extra Hextra].
  { induction before as [|c before IH].
    - exists "". rewrite !append_empty_l.
      apply folder_of_hash_match. by apply status_match_anchored.
    - rewrite append_cons.
      destruct (Router.match_at (String c (before +:+ "#/status/" +:+ name)))
        as [g|] eqn:Hm.
      + rewrite (folder_of_hash_match _ g (status_match_here _ _ Hm)).
        apply match_at_Some in Hm as (Heq & _ & _).
        rewrite <- append_cons in Heq.
        rewrite <- (append_assoc_status (String c before) name) in Heq.
        apply (append_eq_suffix _ _ _ _ Heq).
        rewrite string_length_append. lia.
      + destruct IH as [extra IH]. exists extra. rewrite <- IH.
        unfold DeployPage.folder_of_hash. cbn [Router.status_match]. by rewrite Hm. }
  split; [eauto|]. split.
  - rewrite Hextra, string_length_append. lia.
  - apply folder_of_hash_match. by apply status_match_anchored.
Qed.

Lemma folder_is_the_longest_candidate_witness :
  "b" <> "" /\ Js.all_dot "b" = true
  /\ exists extra,
       DeployPage.folder_of_hash ("x#/status/a" +:+ "#/status/" +:+ "b") = extra +:+ "b".
Proof.
  split; [discriminate|]. split; [reflexivity|].
  refine (proj1 (folder_is_the_longest_candidate "x#/status/a" "b" _ eq_refl)).
  discriminate.
Defined.

(** ** The "add repository" dialog: switching tabs *)

(** X16. In an open dialog, going from the GitHub App tab to the SSH tab
    sends nothing, empties the repository list and the selected repository,
    and keeps the folder name, the URL and the key file.  Going from the SSH
    tab to the enabled GitHub App tab sends exactly one request, for the
    repository list, marks the list as loading and clears the error text.
    Clicking the tab that is already selected changes nothing and sends
    nothing. *)
Theorem tab_switching (st : AddRepoModal.State) :
  (AddRepoModal.method st = AddRepoModal.github ->
   let out := AddRepoModal.step true AddRepoModal.ClickSshTab st in
   out.2 = []
   /\ AddRepoModal.method out.1 = AddRepoModal.ssh
   /\ AddRepoModal.githubRepos out.1 = []
   /\ AddRepoModal.selectedGithubRepo out.1 = ""
   /\ AddRepoModal.folderName out.1 = AddRepoModal.folderName st
   /\ AddRepoModal.repoUrl out.1 = AddRepoModal.repoUrl st
   /\ AddRepoModal.sshKeyFile out.1 = AddRepoModal.sshKeyFile st)
  /\ (AddRepoModal.method st = AddRepoModal.ssh ->
      AddRepoModal.githubAvailable st = true ->
      let out := AddRepoModal.step true AddRepoModal.ClickGithubTab st in
      out.2 = [AddRepoModal.get AddRepoModal.github_list_url]
      /\ AddRepoModal.method out.1 = AddRepoModal.github
      /\ AddRepoModal.loadingRepos out.1 = true
      /\ AddRepoModal.error out.1 = None
      /\ AddRepoModal.folderName out.1 = AddRepoModal.folderName st)
  /\ (AddRepoModal.method st = AddRepoModal.ssh ->
      AddRepoModal.step true AddRepoModal.ClickSshTab st = (st, []))
  /\ (AddRepoModal.method st = AddRepoModal.github ->
      AddRepoModal.githubAvailable st = true ->
      AddRepoModal.step true AddRepoModal.ClickGithubTab st = (st, [])).
Proof.
  unfold AddRepoModal.step, AddRepoModal.rerun_effect, AddRepoModal.fetchGithubRepos,
    AddRepoModal.github_tab_disabled.
  destruct st as [m ga l e su u f k rs sel lr]. simpl.
  split; [|split; [|split]].
  - intros ->. by destruct ga.
  - intros -> ->. done.
  - intros ->. by destruct ga.
  - intros -> ->. done.
Qed.

